(** * Verification of scripts/generate-icons.py

    The script renders a rounded-square icon (white coin, green letter B)
    into RGBA pixels and serialises them as PNG and ICO files.

    Numeric model.  Python floats are read as real numbers: [+], [-], [*],
    [/] and [math.sqrt] are the exact operations of [R], decimal literals
    denote the decimal they spell, and an [int] operand is coerced with
    [IZR].  [int(v)] on a float truncates toward zero.  Comparisons return
    booleans through the decision procedures of [R].

    The script takes no input: it only ever rasterizes the sizes 512,
    192, 180 and 32.  Module [Binary64] repeats the rasterizer in IEEE
    binary64 arithmetic, the arithmetic of Python floats, so that the
    concrete pixels the properties below single out can also be evaluated
    with the rounding the interpreter performs.

    Byte model.  [bytes] values are [list byte]; [struct.pack] is fallible
    and returns an error when a field is out of range for its format. *)

From Stdlib Require Import Floats String.
From Stdlib Require Uint63.
From Stdlib Require Import Reals Lra Lia ZArith List Bool Psatz.
From coqutil Require Import Byte Word.LittleEndianList.
Import ListNotations.

Set Warnings "-inexact-float".

Local Open Scope R_scope.

(** ** Python primitives on numbers *)

Module Py.

Definition ltb (a b : R) : bool := if Rlt_dec a b then true else false.
Definition leb (a b : R) : bool := if Rle_dec a b then true else false.
Definition gtb (a b : R) : bool := ltb b a.
Definition geb (a b : R) : bool := leb b a.

(** [int(v)] for a float [v]: truncation toward zero. *)
Definition int (v : R) : Z :=
  if Rle_dec 0 v then Zfloor v else Zceil v.

(** [min(a, b)]: the first argument unless the second is smaller. *)
Definition min (a b : R) : R := if Rlt_dec b a then b else a.

(** [max(a, b)]: the first argument unless the second is larger. *)
Definition max (a b : R) : R := if Rlt_dec a b then b else a.

(** [range(n)] for an integer [n]. *)
Definition range (n : Z) : list Z := map Z.of_nat (seq 0 (Z.to_nat n)).

End Py.

(** ** Rasterizer *)

(** Brand colour: emerald #10b981 *)
Definition BG_R : Z := 0x10.
Definition BG_G : Z := 0xB9.
Definition BG_B : Z := 0x81.

(** The expression [math.sqrt((x - cx) ** 2 + (y - cy) ** 2)] shared by the
    two coverage functions. *)
Definition dist (x y : Z) (cx cy : R) : R :=
  sqrt ((IZR x - cx) ^ 2 + (IZR y - cy) ^ 2).

(** The expression [max(0, min(1, (r + 0.7 - dist) / 1.4))]. *)
Definition ramp (r d : R) : R :=
  Py.max 0 (Py.min 1 ((r + 0.7 - d) / 1.4)).

Definition aa_circle (x y : Z) (cx cy r : R) : R :=
  let dist := dist x y cx cy in
  if Py.ltb dist (r - 0.7) then 1
  else if Py.gtb dist (r + 0.7) then 0
  else ramp r dist.

(** The list [corners] of [aa_rounded_rect]. *)
Definition corners (size : Z) (corner_r : R) : list (R * R) :=
  [ (corner_r, corner_r);
    (IZR size - corner_r, corner_r);
    (corner_r, IZR size - corner_r);
    (IZR size - corner_r, IZR size - corner_r) ].

(** The tests [in_cx] and [in_cy] of the loop body; [v] is the pixel
    coordinate and [c] the corner centre's coordinate on the same axis. *)
Definition in_c (v : Z) (size : Z) (corner_r center c : R) : bool :=
  (Py.ltb (IZR v) corner_r && Py.ltb c center)
  || (Py.geb (IZR v) (IZR size - corner_r) && Py.gtb c center).

(** The [for cx, cy in corners] loop, with the trailing [return 1.0] as
    the exit of the loop. *)
Fixpoint corner_loop (x y size : Z) (corner_r center : R)
         (cs : list (R * R)) : R :=
  match cs with
  | [] => 1
  | (cx, cy) :: rest =>
      let in_cx := in_c x size corner_r center cx in
      let in_cy := in_c y size corner_r center cy in
      if in_cx && in_cy then
        let dist := dist x y cx cy in
        if Py.gtb dist (corner_r + 0.7) then 0
        else if Py.gtb dist (corner_r - 0.7) then ramp corner_r dist
        else corner_loop x y size corner_r center rest
      else corner_loop x y size corner_r center rest
  end.

Definition aa_rounded_rect (x y size : Z) (corner_r : R) : R :=
  let center := IZR size / 2 in
  corner_loop x y size corner_r center (corners size corner_r).

Definition is_in_b (nx ny : R) : bool :=
  let stem := Py.leb 0.32 nx && Py.leb nx 0.44 && (Py.leb 0.20 ny && Py.leb ny 0.80) in
  let top_bar := Py.leb 0.44 nx && Py.leb nx 0.58 && (Py.leb 0.20 ny && Py.leb ny 0.30) in
  let mid_bar := Py.leb 0.44 nx && Py.leb nx 0.60 && (Py.leb 0.46 ny && Py.leb ny 0.54) in
  let bot_bar := Py.leb 0.44 nx && Py.leb nx 0.58 && (Py.leb 0.70 ny && Py.leb ny 0.80) in
  let '(tcx, tcy, trx, try_) := (0.55, 0.375, 0.14, 0.135) in
  let top_bump :=
    Py.leb (((nx - tcx) / trx) ^ 2 + ((ny - tcy) / try_) ^ 2) 1 && Py.geb nx 0.44 in
  let '(bcx, bcy, brx, bry) := (0.57, 0.625, 0.15, 0.135) in
  let bot_bump :=
    Py.leb (((nx - bcx) / brx) ^ 2 + ((ny - bcy) / bry) ^ 2) 1 && Py.geb nx 0.44 in
  let filled := stem || top_bar || mid_bar || bot_bar || top_bump || bot_bump in
  if negb filled then false
  else
    let '(h1cx, h1cy, h1rx, h1ry) := (0.49, 0.375, 0.065, 0.065) in
    if Py.leb (((nx - h1cx) / h1rx) ^ 2 + ((ny - h1cy) / h1ry) ^ 2) 1 then false
    else
      let '(h2cx, h2cy, h2rx, h2ry) := (0.51, 0.625, 0.070, 0.065) in
      if Py.leb (((nx - h2cx) / h2rx) ^ 2 + ((ny - h2cy) / h2ry) ^ 2) 1 then false
      else true.

(** A pixel is the tuple [(r, g, b, a)] of Python integers. *)
Definition pixel : Type := (Z * Z * Z * Z)%type.

(** Body of the inner loop of [draw_icon]: the tuple appended for the pixel
    at column [x] of row [y]. *)
Definition draw_pixel (size : Z) (center corner_r coin_r : R) (x y : Z) : pixel :=
  let ra := aa_rounded_rect x y size corner_r in
  if Py.leb ra 0 then (0, 0, 0, 0)%Z
  else
    let alpha := Py.int (ra * 255) in
    let ca := aa_circle x y center center coin_r in
    if Py.geb ca 1 then
      let nx := 0.5 + (IZR x - center) / (coin_r * 2) in
      let ny := 0.5 + (IZR y - center) / (coin_r * 2) in
      if is_in_b nx ny then (BG_R, BG_G, BG_B, alpha)
      else (255, 255, 255, alpha)%Z
    else if Py.gtb ca 0 then
      let r := Py.int (IZR BG_R * (1 - ca) + 255 * ca) in
      let g := Py.int (IZR BG_G * (1 - ca) + 255 * ca) in
      let b := Py.int (IZR BG_B * (1 - ca) + 255 * ca) in
      (r, g, b, alpha)
    else (BG_R, BG_G, BG_B, alpha).

Definition draw_icon (size : Z) : list pixel :=
  let center := IZR size / 2 in
  let corner_r := IZR size * 0.18 in
  let coin_r := IZR size * 0.35 in
  flat_map (fun y => map (fun x => draw_pixel size center corner_r coin_r x y)
                         (Py.range size))
           (Py.range size).

(** ** The rasterizer in binary64 arithmetic

    The same functions over primitive floats, the arithmetic the
    interpreter performs: [+], [-], [*], [/] and [math.sqrt] round to
    nearest-even, decimal literals denote the nearest double, and
    comparisons are those of IEEE 754. *)

Module Binary64.

Local Open Scope float_scope.

(** An [int] operand coerced to [float]: exact up to 2^53 in magnitude,
    rounded to nearest beyond.  Integers of magnitude 2^63 or more, which
    no canvas reaches, are outside the range of this conversion. *)
Definition of_int (z : Z) : float :=
  if (z <? 0)%Z then - PrimFloat.of_uint63 (Uint63.of_Z (- z))
  else PrimFloat.of_uint63 (Uint63.of_Z z).

(** [int(v)]: the finite float [(-1)^s * m * 2^e] truncated toward zero. *)
Definition int (v : float) : Z :=
  match Prim2SF v with
  | S754_finite s m e =>
      let a := if (0 <=? e)%Z then Z.shiftl (Z.pos m) e
               else Z.shiftr (Z.pos m) (- e) in
      if s then (- a)%Z else a
  | _ => 0%Z
  end.

(** [min(a, b)] and [max(a, b)]: the first argument unless the second is
    strictly smaller, respectively larger. *)
Definition min (a b : float) : float := if b <? a then b else a.
Definition max (a b : float) : float := if a <? b then b else a.

(** The expression [max(0, min(1, (r + 0.7 - dist) / 1.4))]. *)
Definition ramp (r d : float) : float :=
  max 0 (min 1 ((r + 0.7 - d) / 1.4)).

Definition in_c (v size : Z) (corner_r center c : float) : bool :=
  ((of_int v <? corner_r) && (c <? center))
  || ((of_int size - corner_r <=? of_int v) && (center <? c)).

Definition corners (size : Z) (corner_r : float) : list (float * float) :=
  [ (corner_r, corner_r);
    (of_int size - corner_r, corner_r);
    (corner_r, of_int size - corner_r);
    (of_int size - corner_r, of_int size - corner_r) ].

Section Rasterizer.

(** [e ** 2] on a float [e] calls the C library's [pow(e, 2.0)].  IEEE 754
    does not fix the last bit of [pow], so it is a parameter of the
    rasterizer: what is proved below holds whatever it returns. *)
Variable pow2 : float -> float.

Definition dist (x y : Z) (cx cy : float) : float :=
  PrimFloat.sqrt (pow2 (of_int x - cx) + pow2 (of_int y - cy)).

Definition aa_circle (x y : Z) (cx cy r : float) : float :=
  let dist := dist x y cx cy in
  if dist <? r - 0.7 then 1
  else if r + 0.7 <? dist then 0
  else ramp r dist.

Fixpoint corner_loop (x y size : Z) (corner_r center : float)
         (cs : list (float * float)) : float :=
  match cs with
  | [] => 1
  | (cx, cy) :: rest =>
      let in_cx := in_c x size corner_r center cx in
      let in_cy := in_c y size corner_r center cy in
      if in_cx && in_cy then
        let dist := dist x y cx cy in
        if corner_r + 0.7 <? dist then 0
        else if corner_r - 0.7 <? dist then ramp corner_r dist
        else corner_loop x y size corner_r center rest
      else corner_loop x y size corner_r center rest
  end.

Definition aa_rounded_rect (x y size : Z) (corner_r : float) : float :=
  let center := of_int size / 2 in
  corner_loop x y size corner_r center (corners size corner_r).

Definition is_in_b (nx ny : float) : bool :=
  let stem := (0.32 <=? nx) && (nx <=? 0.44) && ((0.20 <=? ny) && (ny <=? 0.80)) in
  let top_bar := (0.44 <=? nx) && (nx <=? 0.58) && ((0.20 <=? ny) && (ny <=? 0.30)) in
  let mid_bar := (0.44 <=? nx) && (nx <=? 0.60) && ((0.46 <=? ny) && (ny <=? 0.54)) in
  let bot_bar := (0.44 <=? nx) && (nx <=? 0.58) && ((0.70 <=? ny) && (ny <=? 0.80)) in
  let '(tcx, tcy, trx, try_) := (0.55, 0.375, 0.14, 0.135) in
  let top_bump :=
    (pow2 ((nx - tcx) / trx) + pow2 ((ny - tcy) / try_) <=? 1) && (0.44 <=? nx) in
  let '(bcx, bcy, brx, bry) := (0.57, 0.625, 0.15, 0.135) in
  let bot_bump :=
    (pow2 ((nx - bcx) / brx) + pow2 ((ny - bcy) / bry) <=? 1) && (0.44 <=? nx) in
  let filled := stem || top_bar || mid_bar || bot_bar || top_bump || bot_bump in
  if negb filled then false
  else
    let '(h1cx, h1cy, h1rx, h1ry) := (0.49, 0.375, 0.065, 0.065) in
    if pow2 ((nx - h1cx) / h1rx) + pow2 ((ny - h1cy) / h1ry) <=? 1 then false
    else
      let '(h2cx, h2cy, h2rx, h2ry) := (0.51, 0.625, 0.070, 0.065) in
      if pow2 ((nx - h2cx) / h2rx) + pow2 ((ny - h2cy) / h2ry) <=? 1 then false
      else true.

Definition draw_pixel (size : Z) (center corner_r coin_r : float) (x y : Z) : pixel :=
  let ra := aa_rounded_rect x y size corner_r in
  if ra <=? 0 then (0, 0, 0, 0)%Z
  else
    let alpha := int (ra * 255) in
    let ca := aa_circle x y center center coin_r in
    if 1 <=? ca then
      let nx := 0.5 + (of_int x - center) / (coin_r * 2) in
      let ny := 0.5 + (of_int y - center) / (coin_r * 2) in
      if is_in_b nx ny then (BG_R, BG_G, BG_B, alpha)
      else (255, 255, 255, alpha)%Z
    else if 0 <? ca then
      let r := int (of_int BG_R * (1 - ca) + 255 * ca) in
      let g := int (of_int BG_G * (1 - ca) + 255 * ca) in
      let b := int (of_int BG_B * (1 - ca) + 255 * ca) in
      (r, g, b, alpha)
    else (BG_R, BG_G, BG_B, alpha).

Definition draw_icon (size : Z) : list pixel :=
  let center := of_int size / 2 in
  let corner_r := of_int size * 0.18 in
  let coin_r := of_int size * 0.35 in
  flat_map (fun y => map (fun x => draw_pixel size center corner_r coin_r x y)
                         (Py.range size))
           (Py.range size).

End Rasterizer.

(** The correctly rounded square: the instance of [pow2] at which single
    pixels are evaluated. *)
Definition sq (a : float) : float := a * a.

End Binary64.

(** ** Byte strings, [struct] and [zlib] *)

Inductive error : Set := StructError | IndexError.

Inductive result (A : Type) : Type :=
| Ok (a : A)
| Raise (e : error).
Arguments Ok {A} a.
Arguments Raise {A} e.

Definition bind {A B : Type} (m : result A) (k : A -> result B) : result B :=
  match m with
  | Ok a => k a
  | Raise e => Raise e
  end.

Notation "x <- m ;; k" := (bind m (fun x => k))
  (at level 61, m at next level, right associativity).

Local Open Scope Z_scope.

Module struct.

(** One unsigned field of [n] bytes: the value must fit or
    [struct.error] is raised. *)
Definition fits (n : nat) (v : Z) : bool :=
  (0 <=? v) && (v <? 2 ^ (8 * Z.of_nat n)).

Definition pack_le (n : nat) (v : Z) : result (list byte) :=
  if fits n v then Ok (le_split n v) else Raise StructError.

Definition pack_be (n : nat) (v : Z) : result (list byte) :=
  if fits n v then Ok (rev (le_split n v)) else Raise StructError.

(** Format characters: [B] one byte, [H] two bytes, [I] four bytes. *)
Inductive fmt : Set := B | H | I.

Definition width (f : fmt) : nat :=
  match f with B => 1 | H => 2 | I => 4 end%nat.

(** [struct.pack('<...', ...)] and [struct.pack('>...', ...)]: standard
    sizes, no padding, fields in order. *)
Fixpoint pack (big_endian : bool) (fs : list fmt) (vs : list Z)
  : result (list byte) :=
  match fs, vs with
  | [], [] => Ok []
  | f :: fs', v :: vs' =>
      b <- (if big_endian then pack_be (width f) v else pack_le (width f) v) ;;
      bs <- pack big_endian fs' vs' ;;
      Ok (b ++ bs)
  | _, _ => Raise StructError
  end.

(** Reading a big-endian unsigned field back. *)
Definition unpack_be (bs : list byte) : Z := le_combine (rev bs).

End struct.

Module zlib.

(** [zlib.crc32]: the CRC-32 of ISO 3309 / ITU-T V.42 used by PNG and
    zlib, in its bit-by-bit reflected form with polynomial 0xEDB88320,
    initial value and final complement 0xFFFFFFFF. *)
Definition crc_bit (c : Z) : Z :=
  if Z.testbit c 0 then Z.lxor (Z.shiftr c 1) 0xEDB88320 else Z.shiftr c 1.

Definition crc_byte (c : Z) (b : byte) : Z :=
  let c := Z.lxor c (byte.unsigned b) in
  crc_bit (crc_bit (crc_bit (crc_bit (crc_bit (crc_bit (crc_bit (crc_bit c))))))).

Definition crc32 (data : list byte) : Z :=
  Z.lxor (fold_left crc_byte data 0xFFFFFFFF) 0xFFFFFFFF.

End zlib.

(** [b'...'] literals of the script. *)
Definition bytes_of (l : list Z) : list byte := map byte.of_Z l.

Definition sig : list byte := bytes_of [0x89; 0x50; 0x4E; 0x47; 0x0D; 0x0A; 0x1A; 0x0A].
Definition IHDR : list byte := bytes_of [0x49; 0x48; 0x44; 0x52].
Definition IDAT : list byte := bytes_of [0x49; 0x44; 0x41; 0x54].
Definition IEND : list byte := bytes_of [0x49; 0x45; 0x4E; 0x44].

Definition len {A : Type} (l : list A) : Z := Z.of_nat (length l).

Section Encoder.

(** [zlib.compress(data, level)]: the deflate compressor of the zlib
    library, left abstract. *)
Variable zlib_compress : list byte -> Z -> list byte.

(** The inner function [chunk] of [make_png]. *)
Definition chunk (chunk_type data : list byte) : result (list byte) :=
  let c := chunk_type ++ data in
  crc <- struct.pack_be 4 (Z.land (zlib.crc32 c) 0xFFFFFFFF) ;;
  l <- struct.pack_be 4 (len data) ;;
  Ok (l ++ c ++ crc).

(** The [for x in range(width)] loop of [make_png], appending to [raw]. *)
Fixpoint row_loop (width : Z) (pixels : list pixel) (y : Z)
         (xs : list Z) (raw : list byte) : result (list byte) :=
  match xs with
  | [] => Ok raw
  | x :: xs' =>
      match nth_error pixels (Z.to_nat (y * width + x)) with
      | None => Raise IndexError
      | Some (r, g, b, a) =>
          px <- struct.pack false [struct.B; struct.B; struct.B; struct.B]
                            [r; g; b; a] ;;
          row_loop width pixels y xs' (raw ++ px)
      end
  end.

(** The [for y in range(height)] loop of [make_png]. *)
Fixpoint rows_loop (width : Z) (pixels : list pixel)
         (ys : list Z) (raw : list byte) : result (list byte) :=
  match ys with
  | [] => Ok raw
  | y :: ys' =>
      raw' <- row_loop width pixels y (Py.range width) (raw ++ [byte.of_Z 0]) ;;
      rows_loop width pixels ys' raw'
  end.

(** The scanline buffer [raw] built by [make_png]. *)
Definition scanlines (width height : Z) (pixels : list pixel)
  : result (list byte) :=
  rows_loop width pixels (Py.range height) [].

Definition make_png (width height : Z) (pixels : list pixel)
  : result (list byte) :=
  ihdr <- struct.pack true
            [struct.I; struct.I; struct.B; struct.B; struct.B; struct.B; struct.B]
            [width; height; 8; 6; 0; 0; 0] ;;
  raw <- scanlines width height pixels ;;
  let compressed := zlib_compress raw 9 in
  c1 <- chunk IHDR ihdr ;;
  c2 <- chunk IDAT compressed ;;
  c3 <- chunk IEND [] ;;
  Ok (sig ++ c1 ++ c2 ++ c3).

(** The favicon part of [main]: the bytes written to [favicon.ico]. *)
Definition favicon_ico : result (list byte) :=
  let pixels := draw_icon 32 in
  png_data <- make_png 32 32 pixels ;;
  ico_header <- struct.pack false [struct.H; struct.H; struct.H] [0; 1; 1] ;;
  ico_entry <- struct.pack false
                 [struct.B; struct.B; struct.B; struct.B;
                  struct.H; struct.H; struct.I; struct.I]
                 [32; 32; 0; 0; 1; 32; len png_data; 22] ;;
  Ok (ico_header ++ ico_entry ++ png_data).

End Encoder.

(** ** The image files of [main] *)

Section Main.

Variable zlib_compress : list byte -> Z -> list byte.

(** A file written by the script: its path and its content. *)
Definition file : Type := (String.string * list byte)%type.

Definition out_dir : String.string := "/home/user/budgy-ting/public"%string.

(** [os.path.join(out_dir, filename)] for a relative [filename]. *)
Definition join (dir filename : String.string) : String.string :=
  String.append dir (String.append "/"%string filename).

(** The dict [sizes], in insertion order. *)
Definition sizes : list (String.string * Z) :=
  [ ("pwa-512x512.png"%string, 512);
    ("pwa-192x192.png"%string, 192);
    ("apple-touch-icon.png"%string, 180) ].

(** The loop [for filename, size in sizes.items()]: the files written so
    far are threaded through, and an exception stops the run, leaving
    them in place. *)
Fixpoint icons_loop (todo : list (String.string * Z)) (written : list file)
  : list file * option error :=
  match todo with
  | [] => (written, None)
  | (filename, size) :: rest =>
      let pixels := draw_icon size in
      match make_png zlib_compress size size pixels with
      | Raise e => (written, Some e)
      | Ok png_data =>
          icons_loop rest (written ++ [(join out_dir filename, png_data)])
      end
  end.

(** [main] up to and including the favicon: the files written, and the
    exception that stopped the run if there was one. *)
Definition main_images : list file * option error :=
  match icons_loop sizes [] with
  | (written, Some e) => (written, Some e)
  | (written, None) =>
      match favicon_ico zlib_compress with
      | Raise e => (written, Some e)
      | Ok ico => (written ++ [(join out_dir "favicon.ico"%string, ico)], None)
      end
  end.

End Main.

(** * Specification vocabulary

    The notions the specification is worded with: regions of the
    glyph, the coverage profile, corner quadrants, channels of a pixel,
    and the PNG and ICO containers as a reader sees them. *)

Local Open Scope R_scope.

(** ** The glyph region *)

Module Glyph.

(** Axis-aligned rectangle [x0, x1] x [y0, y1]. *)
Definition rect (x0 x1 y0 y1 nx ny : R) : Prop :=
  (x0 <= nx <= x1) /\ (y0 <= ny <= y1).

(** Axis-aligned ellipse with centre [(cx, cy)] and radii [(rx, ry)]. *)
Definition ellipse (cx cy rx ry nx ny : R) : Prop :=
  (nx - cx) ^ 2 / rx ^ 2 + (ny - cy) ^ 2 / ry ^ 2 <= 1.

Definition stem := rect 0.32 0.44 0.20 0.80.
Definition top_bar := rect 0.44 0.58 0.20 0.30.
Definition mid_bar := rect 0.44 0.60 0.46 0.54.
Definition bottom_bar := rect 0.44 0.58 0.70 0.80.
Definition upper_bowl nx ny := ellipse 0.55 0.375 0.14 0.135 nx ny /\ nx >= 0.44.
Definition lower_bowl nx ny := ellipse 0.57 0.625 0.15 0.135 nx ny /\ nx >= 0.44.
Definition hole1 := ellipse 0.49 0.375 0.065 0.065.
Definition hole2 := ellipse 0.51 0.625 0.070 0.065.

Definition filled (nx ny : R) : Prop :=
  stem nx ny \/ top_bar nx ny \/ mid_bar nx ny \/ bottom_bar nx ny
  \/ upper_bowl nx ny \/ lower_bowl nx ny.






End Glyph.

(** ** Coverage and quadrants *)

(** The coverage profile of section 4.2 of the specification: full
    coverage up to [r - 0.7], none from [r + 0.7] on, linear between. *)
Definition falloff (r d : R) : R :=
  if Rle_dec d (r - 0.7) then 1
  else if Rle_dec (r + 0.7) d then 0
  else (r + 0.7 - d) / 1.4.

(** What it means for the value [v] to follow that profile at distance [d]. *)
Definition profile (r d v : R) : Prop :=
  0 <= v <= 1
  /\ (d <= r - 0.7 -> v = 1)
  /\ (r + 0.7 <= d -> v = 0)
  /\ (r - 0.7 <= d <= r + 0.7 -> v = (r + 0.7 - d) / 1.4).

(** Which side of the square a corner lies on, along one axis. *)
Inductive side : Set := Lo | Hi.

(** Corner centre coordinate: inset by [r] from the edge at 0 or at [size]. *)
Definition inset (size : Z) (r : R) (s : side) : R :=
  match s with Lo => 0 + r | Hi => IZR size - r end.

(** The coordinate [v] lies beyond the corner centre, toward the edge. *)
Definition outer (size : Z) (r : R) (s : side) (v : Z) : Prop :=
  match s with Lo => IZR v < r | Hi => IZR v >= IZR size - r end.



(** Allowance for the rounding of distances between pixels, and the pixel
    range within which rounding stays far below it. *)
Definition margin : R := 1 / 10 ^ 6.


(** The coordinate [v] lies beyond the corner centre and clear of the
    quadrant's boundary [size - r], which the code computes rounded. *)
Definition clear (size : Z) (r : R) (s : side) (v : Z) : Prop :=
  match s with Lo => IZR v < r | Hi => IZR v >= IZR size - r + margin end.

(** ** Coverage, quadrants and glyph as computed in binary64 *)

Module Rounded.

Local Open Scope float_scope.

(** The real number a finite float stands for. *)
Definition value (f : float) : R :=
  match Prim2SF f with
  | S754_finite s m e =>
      let a := IZR (if s then Z.neg m else Z.pos m) in
      if (0 <=? e)%Z then (a * IZR (2 ^ e))%R else (a / IZR (2 ^ (- e)))%R
  | _ => 0%R
  end.

(** The largest integer not above a finite float. *)
Definition floor (v : float) : Z :=
  match Prim2SF v with
  | S754_finite s m e =>
      let a := if s then Z.neg m else Z.pos m in
      if (0 <=? e)%Z then Z.shiftl a e else Z.shiftr a (- e)
  | _ => 0%Z
  end.

(** The float is not a negative number. *)
Definition sign_clear (f : spec_float) : Prop :=
  match f with
  | S754_zero s | S754_infinity s | S754_finite s _ _ => s = false
  | S754_nan => True
  end.

(** Composition of two comparison results, neither of them [Gt]. *)
Definition chain (c1 c2 : comparison) : comparison :=
  match c1, c2 with Eq, Eq => Eq | _, _ => Lt end.


(** The coverage profile around a corner arc, on computed numbers: none
    beyond [r + 0.7], the clamped linear ramp beyond [r - 0.7], full
    otherwise. *)
Definition falloff (r d : float) : float :=
  if r + 0.7 <? d then 0
  else if r - 0.7 <? d then Binary64.ramp r d
  else 1.

(** Corner centre coordinate: inset by [r] from the edge at 0 or at
    [size]. *)
Definition inset (size : Z) (r : float) (s : side) : float :=
  match s with Lo => r | Hi => Binary64.of_int size - r end.

(** The coordinate [v] lies beyond the corner centre, toward the edge. *)
Definition outer (size : Z) (r : float) (s : side) (v : Z) : bool :=
  match s with
  | Lo => Binary64.of_int v <? r
  | Hi => Binary64.of_int size - r <=? Binary64.of_int v
  end.

(** The pixel of [Binary64.draw_icon] at column [x] of row [y]. *)
Definition pixel_at (pow2 : float -> float) (size x y : Z) : option pixel :=
  nth_error (Binary64.draw_icon pow2 size) (Z.to_nat (y * size + x)).

End Rounded.

(** The tests of the glyph on computed numbers. *)
Module Glyph64.

Local Open Scope float_scope.

Section Tests.

Variable pow2 : float -> float.

Definition rect (x0 x1 y0 y1 nx ny : float) : bool :=
  (x0 <=? nx) && (nx <=? x1) && ((y0 <=? ny) && (ny <=? y1)).

Definition ellipse (cx cy rx ry nx ny : float) : bool :=
  pow2 ((nx - cx) / rx) + pow2 ((ny - cy) / ry) <=? 1.

Definition stem := rect 0.32 0.44 0.20 0.80.
Definition top_bar := rect 0.44 0.58 0.20 0.30.
Definition mid_bar := rect 0.44 0.60 0.46 0.54.
Definition bottom_bar := rect 0.44 0.58 0.70 0.80.
Definition upper_bowl nx ny := ellipse 0.55 0.375 0.14 0.135 nx ny && (0.44 <=? nx).
Definition lower_bowl nx ny := ellipse 0.57 0.625 0.15 0.135 nx ny && (0.44 <=? nx).
Definition hole1 := ellipse 0.49 0.375 0.065 0.065.
Definition hole2 := ellipse 0.51 0.625 0.070 0.065.

Definition filled (nx ny : float) : bool :=
  stem nx ny || top_bar nx ny || mid_bar nx ny || bottom_bar nx ny
  || upper_bowl nx ny || lower_bowl nx ny.

End Tests.

End Glyph64.

(** ** Pixels of the canvas *)

Definition red (p : pixel) : Z := let '(r, _, _, _) := p in r.
Definition green (p : pixel) : Z := let '(_, g, _, _) := p in g.
Definition blue (p : pixel) : Z := let '(_, _, b, _) := p in b.
Definition alpha (p : pixel) : Z := let '(_, _, _, a) := p in a.
Definition rgb (p : pixel) : Z * Z * Z := (red p, green p, blue p).

(** The pixel of [draw_icon size] at column [x] of row [y]. *)
Definition pixel_at (size x y : Z) : option pixel :=
  nth_error (draw_icon size) (Z.to_nat (y * size + x)).

(** [z] is an integer nearest to [v]. *)
Definition nearest (v : R) (z : Z) : Prop := Rabs (v - IZR z) <= 1 / 2.

(** A channel value that [struct.pack('B', ...)] accepts. *)
Definition channel (c : Z) : Prop := (0 <= c <= 255)%Z.

Definition valid_pixel (p : pixel) : Prop :=
  channel (red p) /\ channel (green p) /\ channel (blue p) /\ channel (alpha p).

Local Open Scope Z_scope.

(** ** The PNG container, read back *)

(** A chunk as the specification frames it: 4-byte big-endian data length,
    4-byte type, the data, and the 4-byte big-endian CRC-32 of type and
    data. *)
Definition frame (chunk_type data : list byte) : list byte :=
  rev (le_split 4 (len data)) ++ chunk_type ++ data
  ++ rev (le_split 4 (zlib.crc32 (chunk_type ++ data))).

Module Png.

(** Read a sequence of chunks, checking each CRC by recomputation. *)
Fixpoint read_chunks (fuel : nat) (bs : list byte)
  : option (list (list byte * list byte)) :=
  match bs with
  | [] => Some []
  | _ :: _ =>
      match fuel with
      | O => None
      | S fuel' =>
          let n := Z.to_nat (struct.unpack_be (firstn 4 bs)) in
          let ty := firstn 4 (skipn 4 bs) in
          let data := firstn n (skipn 8 bs) in
          let crc := firstn 4 (skipn n (skipn 8 bs)) in
          if (length bs <? 12 + n)%nat then None
          else if struct.unpack_be crc =? zlib.crc32 (ty ++ data) then
            option_map (cons (ty, data))
                       (read_chunks fuel' (skipn 4 (skipn n (skipn 8 bs))))
          else None
      end
  end.

(** Read a PNG byte stream: the signature, then chunks to the end. *)
Definition decode (bs : list byte) : option (list (list byte * list byte)) :=
  if list_eq_dec Stdlib.Strings.Byte.byte_eq_dec (firstn 8 bs) sig
  then read_chunks (length bs) (skipn 8 bs)
  else None.

End Png.

(** The IHDR data: width, height, bit depth 8, colour type 6, and three
    zero bytes. *)
Definition ihdr_data (width height : Z) : list byte :=
  rev (le_split 4 width) ++ rev (le_split 4 height) ++ bytes_of [8; 6; 0; 0; 0].

(** ** Scanlines and header, read back *)

Module Scanline.

(** The four bytes of a pixel. *)
Definition pixel_bytes (p : pixel) : list byte :=
  [byte.of_Z (red p); byte.of_Z (green p); byte.of_Z (blue p); byte.of_Z (alpha p)].

(** Read [n] pixels of four bytes each; the rest of the buffer is returned. *)
Fixpoint read_pixels (n : nat) (bs : list byte) : option (list pixel * list byte) :=
  match n with
  | O => Some ([], bs)
  | S n' =>
      match bs with
      | r :: g :: b :: a :: rest =>
          match read_pixels n' rest with
          | Some (ps, rest') =>
              Some ((byte.unsigned r, byte.unsigned g, byte.unsigned b, byte.unsigned a)
                      :: ps, rest')
          | None => None
          end
      | _ => None
      end
  end.

(** Read [h] rows of [w] pixels, each row behind a filter byte 0, to the
    end of the buffer. *)
Fixpoint read_rows (h w : nat) (bs : list byte) : option (list pixel) :=
  match h with
  | O => match bs with [] => Some [] | _ :: _ => None end
  | S h' =>
      match bs with
      | f :: rest =>
          if byte.unsigned f =? 0 then
            match read_pixels w rest with
            | Some (ps, rest') => option_map (app ps) (read_rows h' w rest')
            | None => None
            end
          else None
      | [] => None
      end
  end.

End Scanline.

(** The pixel the encoder reads at an index, when there is one. *)
Definition at_index (pixels : list pixel) (i : nat) : pixel :=
  nth i pixels (0, 0, 0, 0).

(** One scanline: the filter byte 0, then the pixels of the row. *)
Definition row_bytes (width : Z) (pixels : list pixel) (y : Z) : list byte :=
  byte.of_Z 0
  :: flat_map (fun x => Scanline.pixel_bytes (at_index pixels (Z.to_nat (y * width + x))))
              (Py.range width).

(** The seven IHDR fields of a PNG stream, read at their fixed offsets:
    width, height, bit depth, colour type, compression, filter, interlace. *)
Definition read_header (png : list byte) : option (Z * Z * (Z * Z * Z * Z * Z)) :=
  if (length png <? 29)%nat then None
  else Some (struct.unpack_be (firstn 4 (skipn 16 png)),
             struct.unpack_be (firstn 4 (skipn 20 png)),
             (struct.unpack_be (firstn 1 (skipn 24 png)),
              struct.unpack_be (firstn 1 (skipn 25 png)),
              struct.unpack_be (firstn 1 (skipn 26 png)),
              struct.unpack_be (firstn 1 (skipn 27 png)),
              struct.unpack_be (firstn 1 (skipn 28 png)))).

(** The 12 bytes of an empty IEND chunk. *)
Definition iend_trailer : list byte :=
  bytes_of [0; 0; 0; 0; 0x49; 0x45; 0x4E; 0x44; 0xAE; 0x42; 0x60; 0x82].

(** ** The ICO container *)

Module Ico.

(** The fields of a single-image ICO file, in file order. *)
Record file : Type := {
  reserved : Z;          (* 2 bytes *)
  kind : Z;              (* 2 bytes: 1 means icon *)
  count : Z;             (* 2 bytes *)
  width : Z;             (* 1 byte *)
  height : Z;            (* 1 byte *)
  colours : Z;           (* 1 byte *)
  entry_reserved : Z;    (* 1 byte *)
  planes : Z;            (* 2 bytes *)
  bit_count : Z;         (* 2 bytes *)
  image_size : Z;        (* 4 bytes *)
  image_offset : Z;      (* 4 bytes *)
  image : list byte      (* the bytes from [image_offset] on *)
}.

(** The little-endian unsigned field of [n] bytes at offset [off]. *)
Definition field (n off : nat) (bs : list byte) : Z :=
  le_combine (firstn n (skipn off bs)).

Definition read (bs : list byte) : file :=
  {| reserved := field 2 0 bs;
     kind := field 2 2 bs;
     count := field 2 4 bs;
     width := field 1 6 bs;
     height := field 1 7 bs;
     colours := field 1 8 bs;
     entry_reserved := field 1 9 bs;
     planes := field 2 10 bs;
     bit_count := field 2 12 bs;
     image_size := field 4 14 bs;
     image_offset := field 4 18 bs;
     image := skipn (Z.to_nat (field 4 18 bs)) bs |}.

End Ico.

(** Header and directory entry as the bytes they are written as. *)
Definition ico_prefix : list byte :=
  bytes_of [0; 0; 1; 0; 1; 0] ++ bytes_of [32; 32; 0; 0; 1; 0; 32; 0].

Definition ico_layout (png_data : list byte) : list byte :=
  ico_prefix ++ le_split 4 (len png_data) ++ bytes_of [22; 0; 0; 0] ++ png_data.


(** * Properties *)

Local Open Scope R_scope.

(** ** Comparisons and truncation *)

Lemma ltb_true a b : Py.ltb a b = true <-> a < b.
Proof. unfold Py.ltb; destruct (Rlt_dec a b); split; intros; try easy. Qed.

Lemma ltb_false a b : Py.ltb a b = false <-> b <= a.
Proof. unfold Py.ltb; destruct (Rlt_dec a b); split; intros; try easy; lra. Qed.

Lemma leb_true a b : Py.leb a b = true <-> a <= b.
Proof. unfold Py.leb; destruct (Rle_dec a b); split; intros; try easy. Qed.

Lemma leb_false a b : Py.leb a b = false <-> b < a.
Proof. unfold Py.leb; destruct (Rle_dec a b); split; intros; try easy; lra. Qed.

Lemma gtb_true a b : Py.gtb a b = true <-> a > b.
Proof. unfold Py.gtb; rewrite ltb_true; lra. Qed.

Lemma gtb_false a b : Py.gtb a b = false <-> a <= b.
Proof. unfold Py.gtb; rewrite ltb_false; lra. Qed.

Lemma geb_true a b : Py.geb a b = true <-> a >= b.
Proof. unfold Py.geb; rewrite leb_true; lra. Qed.

Lemma geb_false a b : Py.geb a b = false <-> a < b.
Proof. unfold Py.geb; rewrite leb_false; lra. Qed.

(** Turn every boolean comparison of the goal and context into the
    inequality it decides. *)
Ltac cmp_case c :=
  let E := fresh "E" in
  destruct c eqn:E;
  [ first [ apply ltb_true in E | apply leb_true in E
          | apply gtb_true in E | apply geb_true in E ]
  | first [ apply ltb_false in E | apply leb_false in E
          | apply gtb_false in E | apply geb_false in E ] ].

Ltac cmp_cases :=
  repeat match goal with
         | |- context [Py.ltb ?a ?b] => cmp_case (Py.ltb a b)
         | |- context [Py.leb ?a ?b] => cmp_case (Py.leb a b)
         | |- context [Py.gtb ?a ?b] => cmp_case (Py.gtb a b)
         | |- context [Py.geb ?a ?b] => cmp_case (Py.geb a b)
         end.

Lemma int_nonneg v : 0 <= v -> Py.int v = Zfloor v.
Proof. intros H; unfold Py.int; destruct (Rle_dec 0 v); [reflexivity | lra]. Qed.

Lemma int_bounds v (lo hi : Z) :
  0 <= v -> IZR lo <= v -> v < IZR hi + 1 -> (lo <= Py.int v <= hi)%Z.
Proof.
  intros H0 Hlo Hhi. rewrite int_nonneg by assumption.
  pose proof (Zfloor_bound v) as [Hf1 Hf2].
  split.
  - apply Zfloor_lub; assumption.
  - apply Z.lt_succ_r, lt_IZR. rewrite succ_IZR. lra.
Qed.

(** ** Order and sign of binary64 numbers

    From the specification of the primitive operations ([FloatAxioms]):
    the comparisons are a strict and a large order on the numbers (NaN is
    related to nothing), and multiplying or adding non-negative numbers
    never produces a negative one. *)

Ltac cmp_spec :=
  repeat match goal with
         | H : context [(?a ?= ?b)%Z] |- _ => destruct (Z.compare_spec a b)
         | |- context [(?a ?= ?b)%Z] => destruct (Z.compare_spec a b)
         | H : context [(?a ?= ?b)%positive] |- _ => destruct (Pos.compare_spec a b)
         | |- context [(?a ?= ?b)%positive] => destruct (Pos.compare_spec a b)
         end.

Lemma SFcompare_antisym (a b : spec_float) :
  SFcompare b a = option_map CompOpp (SFcompare a b).
Proof.
  destruct a as [[]|[]| |[] m1 e1], b as [[]|[]| |[] m2 e2]; cbn; try reflexivity.
  all: rewrite !Pos.compare_cont_spec; cbn [Pos.switch_Eq].
  all: rewrite (Z.compare_antisym e1 e2), (Pos.compare_antisym m1 m2).
  all: destruct (e1 ?= e2)%Z, (m1 ?= m2)%positive; reflexivity.
Qed.

Lemma SFcompare_trans (a b c : spec_float) (c1 c2 : comparison) :
  SFcompare a b = Some c1 -> SFcompare b c = Some c2 ->
  c1 <> Gt -> c2 <> Gt ->
  SFcompare a c = Some (Rounded.chain c1 c2).
Proof.
  destruct a as [[]|[]| |[] m1 e1], b as [[]|[]| |[] m2 e2], c as [[]|[]| |[] m3 e3];
    cbn; intros H1 H2 N1 N2; try discriminate.
  all: rewrite ?Pos.compare_cont_spec in *; cbn [Pos.switch_Eq] in *.
  all: cmp_spec; subst; cbn in *; try lia.
  all: try (injection H1 as <-); try (injection H2 as <-); try congruence; try reflexivity.
Qed.

Local Open Scope float_scope.

Lemma flt_compare a b :
  (a <? b) = true <-> SFcompare (Prim2SF a) (Prim2SF b) = Some Lt.
Proof.
  rewrite ltb_spec. unfold SFltb.
  destruct (SFcompare (Prim2SF a) (Prim2SF b)) as [[]|]; split; congruence.
Qed.

Lemma fle_compare a b :
  (a <=? b) = true
  <-> exists c, SFcompare (Prim2SF a) (Prim2SF b) = Some c /\ c <> Gt.
Proof.
  rewrite leb_spec. unfold SFleb.
  destruct (SFcompare (Prim2SF a) (Prim2SF b)) as [[]|]; split;
    try congruence; try (intros _; eexists; split; [reflexivity | congruence]).
  all: intros (c & H & N); congruence.
Qed.


Lemma flt_not_fle a b : (a <? b) = true -> (b <=? a) = false.
Proof.
  rewrite flt_compare. intros H. rewrite leb_spec. unfold SFleb.
  rewrite SFcompare_antisym, H. reflexivity.
Qed.

Lemma fle_not_flt a b : (a <=? b) = true -> (b <? a) = false.
Proof.
  rewrite fle_compare. intros (c & H & N). rewrite ltb_spec. unfold SFltb.
  rewrite SFcompare_antisym, H. destruct c; try reflexivity. congruence.
Qed.





Lemma fle_trans a b c : (a <=? b) = true -> (b <=? c) = true -> (a <=? c) = true.
Proof.
  rewrite !fle_compare. intros (c1 & H1 & N1) (c2 & H2 & N2).
  exists (Rounded.chain c1 c2). split; [now apply (SFcompare_trans _ (Prim2SF b)) |].
  destruct c1, c2; cbn; congruence.
Qed.

Local Open Scope Z_scope.

Lemma binary_round_aux_sign m e l :
  Rounded.sign_clear (binary_round_aux prec emax false m e l).
Proof.
  unfold binary_round_aux.
  destruct (shr_fexp prec emax m e l) as [mrs' e'].
  destruct (shr_fexp prec emax _ e' loc_Exact) as [mrs'' e''].
  destruct (shr_m mrs''); [reflexivity | | exact I].
  destruct (e'' <=? emax - prec); reflexivity.
Qed.

Lemma binary_normalize_sign m e :
  0 <= m -> Rounded.sign_clear (binary_normalize prec emax m e false).
Proof.
  intros H. destruct m as [| p | p]; [reflexivity | | lia].
  unfold binary_normalize, binary_round. destruct (shl_align _ _ _) as [mz ez].
  apply binary_round_aux_sign.
Qed.

Lemma SFmul_sign a b :
  Rounded.sign_clear a -> Rounded.sign_clear b -> Rounded.sign_clear (SF64mul a b).
Proof.
  unfold SF64mul, SFmul.
  destruct a as [s1 | s1 | | s1 m1 e1], b as [s2 | s2 | | s2 m2 e2];
    cbn [Rounded.sign_clear]; intros; subst; try reflexivity; try exact I.
  apply binary_round_aux_sign.
Qed.

Lemma SFadd_sign a b :
  Rounded.sign_clear a -> Rounded.sign_clear b -> Rounded.sign_clear (SF64add a b).
Proof.
  unfold SF64add, SFadd.
  destruct a as [s1 | s1 | | s1 m1 e1], b as [s2 | s2 | | s2 m2 e2];
    cbn [Rounded.sign_clear]; intros; subst; try reflexivity; try exact I.
  apply binary_normalize_sign. cbn [cond_Zopp]. lia.
Qed.

Lemma digits2_pos_bound m : Z.pos m < 2 ^ Z.pos (digits2_pos m).
Proof.
  induction m as [m IH | m IH |]; cbn [digits2_pos]; [| | reflexivity].
  all: rewrite Pos2Z.inj_succ, Z.pow_succ_r by lia; lia.
Qed.

(** The mantissa of a binary64 number has at most 53 bits. *)
Lemma bounded_mantissa m e : SpecFloat.bounded prec emax m e = true -> Z.pos m < 2 ^ 53.
Proof.
  unfold SpecFloat.bounded, canonical_mantissa, fexp. intros H.
  apply andb_true_iff in H as [H _]. apply Z.eqb_eq in H.
  pose proof (digits2_pos_bound m) as B.
  assert (D : Z.pos (digits2_pos m) <= 53) by (unfold prec in H; lia).
  apply Z.lt_le_trans with (1 := B). apply Z.pow_le_mono_r; lia.
Qed.

Lemma iter_xO p d : Z.pos (Pos.iter xO p d) = Z.pos p * 2 ^ Z.pos d.
Proof.
  induction d as [| d IH] using Pos.peano_ind.
  - cbn. lia.
  - rewrite Pos.iter_succ, Pos2Z.inj_succ, Z.pow_succ_r by lia.
    rewrite Pos2Z.inj_xO, IH. lia.
Qed.

Local Open Scope float_scope.

(** For a coverage strictly between 0 and 1, neither it nor its
    complement is negative. *)
Lemma one_minus_sign (ca : float) :
  (0 <? ca) = true -> (ca <? 1) = true ->
  Rounded.sign_clear (Prim2SF ca) /\ Rounded.sign_clear (Prim2SF (1 - ca)).
Proof.
  intros H0 H1. rewrite sub_spec.
  pose proof (Prim2SF_valid ca) as V.
  apply flt_compare in H0, H1.
  change (Prim2SF 0) with (S754_zero false) in H0.
  change (Prim2SF 1) with (S754_finite false 4503599627370496 (-52)) in *.
  destruct (Prim2SF ca) as [s | s | | s m e]; try discriminate.
  - destruct s; discriminate.
  - destruct s; [discriminate |]. split; [reflexivity |].
    cbn [valid_binary SpecFloat.valid_binary] in V. apply bounded_mantissa in V.
    unfold SF64sub, SFsub. cbv zeta. apply binary_normalize_sign. cbn [cond_Zopp].
    cbn [SFcompare] in H1. rewrite Pos.compare_cont_spec in H1. cbn [Pos.switch_Eq] in H1.
    unfold shl_align.
    destruct (Z.compare_spec e (-52)) as [E | E | E]; try discriminate.
    + subst e. rewrite Z.min_id, Z.sub_diag. cbn [fst].
      destruct (Pos.compare_spec m 4503599627370496); try discriminate.
      match goal with H : (_ < _)%positive |- _ => apply Pos2Z.pos_lt_pos in H; lia end.
    + rewrite Z.min_r by lia. rewrite Z.sub_diag. cbn [fst].
      destruct (e - -52)%Z as [| d | d] eqn:D; try lia. cbn [fst].
      rewrite iter_xO.
      assert (2 ^ 1 <= 2 ^ Z.pos d)%Z by (apply Z.pow_le_mono_r; lia). lia.
Qed.

(** On a number that is not negative, truncation is the floor. *)
Lemma int_floor (v : float) :
  Rounded.sign_clear (Prim2SF v) -> Binary64.int v = Rounded.floor v.
Proof.
  unfold Binary64.int, Rounded.floor.
  destruct (Prim2SF v) as [| | | s m e]; try reflexivity.
  cbn [Rounded.sign_clear]. intros ->. reflexivity.
Qed.

(** The blend of a channel value [bg] with white is never negative. *)
Lemma blend_floor (bg ca : float) :
  Rounded.sign_clear (Prim2SF bg) ->
  (0 <? ca) = true -> (ca <? 1) = true ->
  Binary64.int (bg * (1 - ca) + 255 * ca) = Rounded.floor (bg * (1 - ca) + 255 * ca).
Proof.
  intros Hb H0 H1. apply int_floor.
  destruct (one_minus_sign ca H0 H1) as [Pc Pt].
  rewrite add_spec, !mul_spec.
  apply SFadd_sign; apply SFmul_sign; try assumption. reflexivity.
Qed.

Local Close Scope float_scope.
Local Open Scope R_scope.

(** ** The glyph region *)




Local Open Scope float_scope.


Local Close Scope float_scope.

(** C3, as stated, fails: the point whose coordinates are the doubles
    0.72 and 0.625 lies in the lower bowl (on its axis, just left of its
    rightmost point, the double 0.72 being below 0.72) and in neither
    hole, and [is_in_b] answers false: (0.72 - 0.57) / 0.15 is computed
    as 1.0000000000000002, whose square exceeds 1. *)
Lemma is_in_b_region_counterexample :
  let nx := Rounded.value 0.72%float in
  let ny := Rounded.value 0.625%float in
  0.7199 < nx < 0.72 /\ ny = 0.625
  /\ Glyph.lower_bowl nx ny
  /\ (Glyph.filled nx ny /\ ~ Glyph.hole1 nx ny /\ ~ Glyph.hole2 nx ny)
  /\ ((0.72 - 0.57) / 0.15 =? 1.0000000000000002)%float = true
  /\ Binary64.is_in_b Binary64.sq 0.72%float 0.625%float = false.
Proof.
  assert (Ex : Rounded.value 0.72%float = 6485183463413514 / 9007199254740992).
  { unfold Rounded.value.
    replace (Prim2SF 0.72%float) with (S754_finite false 6485183463413514 (-53))
      by (vm_compute; reflexivity).
    reflexivity. }
  assert (Ey : Rounded.value 0.625%float = 5629499534213120 / 9007199254740992).
  { unfold Rounded.value.
    replace (Prim2SF 0.625%float) with (S754_finite false 5629499534213120 (-53))
      by (vm_compute; reflexivity).
    reflexivity. }
  cbv zeta. rewrite Ex, Ey.
  assert (B : Glyph.lower_bowl (6485183463413514 / 9007199254740992)
                               (5629499534213120 / 9007199254740992)).
  { unfold Glyph.lower_bowl, Glyph.ellipse. split; lra. }
  split; [lra |]. split; [lra |]. split; [exact B |]. split.
  - split; [| split].
    + unfold Glyph.filled. do 5 right. exact B.
    + unfold Glyph.hole1, Glyph.ellipse. lra.
    + unfold Glyph.hole2, Glyph.ellipse. lra.
  - split; vm_compute; reflexivity.
Qed.

(** ** Coverage functions *)

Lemma dist_nonneg x y cx cy : 0 <= dist x y cx cy.
Proof. apply sqrt_pos. Qed.

Lemma ramp_eq r d :
  r - 0.7 <= d <= r + 0.7 -> ramp r d = (r + 0.7 - d) / 1.4.
Proof.
  intros [H1 H2]. unfold ramp.
  set (v := (r + 0.7 - d) / 1.4).
  assert (Hv : 0 <= v <= 1) by (unfold v; lra).
  unfold Py.min. destruct (Rlt_dec v 1);
    unfold Py.max; match goal with |- context [Rlt_dec ?a ?b] => destruct (Rlt_dec a b) end;
    lra.
Qed.

Lemma ramp_range r d : 0 <= ramp r d <= 1.
Proof.
  unfold ramp.
  generalize ((r + 0.7 - d) / 1.4); intro v.
  unfold Py.min. destruct (Rlt_dec v 1);
    unfold Py.max; match goal with |- context [Rlt_dec ?a ?b] => destruct (Rlt_dec a b) end;
    lra.
Qed.

Lemma falloff_profile r d : profile r d (falloff r d).
Proof.
  unfold profile, falloff.
  destruct (Rle_dec d (r - 0.7)); [| destruct (Rle_dec (r + 0.7) d)];
    repeat split; intros; lra.
Qed.


(** The circle coverage computes the profile at the Euclidean distance. *)
Lemma aa_circle_falloff x y cx cy r :
  aa_circle x y cx cy r = falloff r (dist x y cx cy).
Proof.
  unfold aa_circle, falloff. cbv zeta.
  generalize (dist x y cx cy); intro d.
  cmp_cases;
    repeat match goal with |- context [Rle_dec ?a ?b] => destruct (Rle_dec a b) end;
    try lra.
  all: rewrite ramp_eq by lra; lra.
Qed.

(** One step of the corner loop when the pixel is outside the corner's
    quadrant, and when it is inside. *)
Lemma corner_loop_skip x y size r center cx cy rest :
  in_c x size r center cx && in_c y size r center cy = false ->
  corner_loop x y size r center ((cx, cy) :: rest)
  = corner_loop x y size r center rest.
Proof. intros H. cbn. rewrite H. reflexivity. Qed.

Lemma corner_loop_hit x y size r center cx cy rest :
  in_c x size r center cx && in_c y size r center cy = true ->
  corner_loop x y size r center ((cx, cy) :: rest)
  = if Rle_dec (dist x y cx cy) (r - 0.7)
    then corner_loop x y size r center rest
    else falloff r (dist x y cx cy).
Proof.
  intros H. cbn. rewrite H. unfold falloff.
  generalize (dist x y cx cy); intro d.
  cmp_cases;
    repeat match goal with |- context [Rle_dec ?a ?b] => destruct (Rle_dec a b) end;
    first [ reflexivity | lra | rewrite ramp_eq by lra; lra ].
Qed.

Lemma corner_loop_range x y size r center cs :
  0 <= corner_loop x y size r center cs <= 1.
Proof.
  induction cs as [| [cx cy] rest IH]; cbn.
  - lra.
  - destruct (in_c x size r center cx && in_c y size r center cy); [| exact IH].
    cmp_cases; first [ lra | apply ramp_range | exact IH ].
Qed.

Lemma in_c_lo v size r :
  r < IZR size / 2 ->
  in_c v size r (IZR size / 2) r = Py.ltb (IZR v) r.
Proof.
  intros H. unfold in_c. cmp_cases; cbn; try reflexivity; lra.
Qed.

Lemma in_c_hi v size r :
  r < IZR size / 2 ->
  in_c v size r (IZR size / 2) (IZR size - r) = Py.geb (IZR v) (IZR size - r).
Proof.
  intros H. unfold in_c. cmp_cases; cbn; try reflexivity; lra.
Qed.

Lemma in_c_inset v size r s :
  r < IZR size / 2 ->
  in_c v size r (IZR size / 2) (inset size r s) = true <-> outer size r s v.
Proof.
  intros H. destruct s; cbn [inset outer].
  - rewrite Rplus_0_l, in_c_lo by assumption. apply ltb_true.
  - rewrite in_c_hi by assumption. apply geb_true.
Qed.

(** The rounded-rectangle coverage inside a corner quadrant, for a
    well-formed radius. *)
Lemma aa_rounded_rect_corner x y size r sx sy :
  r < IZR size / 2 ->
  outer size r sx x -> outer size r sy y ->
  aa_rounded_rect x y size r
  = falloff r (dist x y (inset size r sx) (inset size r sy)).
Proof.
  intros Hr Hx Hy.
  assert (Q : forall tx ty,
             in_c x size r (IZR size / 2) (inset size r tx)
             && in_c y size r (IZR size / 2) (inset size r ty)
             = if (match tx, sx with Lo, Lo | Hi, Hi => true | _, _ => false end)
               then (match ty, sy with Lo, Lo | Hi, Hi => true | _, _ => false end)
               else false).
  { intros tx ty.
    destruct (in_c x size r (IZR size / 2) (inset size r tx)) eqn:Ex;
      destruct (in_c y size r (IZR size / 2) (inset size r ty)) eqn:Ey;
      try (apply in_c_inset in Ex; [| assumption]);
      try (apply in_c_inset in Ey; [| assumption]);
      try (assert (~ outer size r tx x) as Nx
            by (rewrite <- in_c_inset by eassumption; congruence));
      try (assert (~ outer size r ty y) as Ny
            by (rewrite <- in_c_inset by eassumption; congruence));
      destruct tx, sx, ty, sy; cbn in *; try reflexivity; try lra. }
  unfold aa_rounded_rect, corners. cbv zeta.
  pose proof (Q Lo Lo) as Q1. pose proof (Q Hi Lo) as Q2.
  pose proof (Q Lo Hi) as Q3. pose proof (Q Hi Hi) as Q4.
  cbn [inset] in Q1, Q2, Q3, Q4. rewrite Rplus_0_l in *.
  assert (F : forall d, (if Rle_dec d (r - 0.7) then 1 else falloff r d) = falloff r d).
  { intros d. unfold falloff. destruct (Rle_dec d (r - 0.7)); reflexivity. }
  destruct sx, sy; cbn [inset]; rewrite ?Rplus_0_l;
    repeat first
      [ rewrite corner_loop_hit by assumption
      | rewrite corner_loop_skip by assumption ];
    cbn [corner_loop]; apply F.
Qed.

(** ... and outside every corner quadrant. *)
Lemma aa_rounded_rect_inner x y size r :
  r < IZR size / 2 ->
  (forall sx sy, ~ (outer size r sx x /\ outer size r sy y)) ->
  aa_rounded_rect x y size r = 1.
Proof.
  intros Hr Hout.
  assert (Q : forall tx ty,
             in_c x size r (IZR size / 2) (inset size r tx)
             && in_c y size r (IZR size / 2) (inset size r ty) = false).
  { intros tx ty. apply not_true_is_false. intros E.
    apply andb_true_iff in E as [Ex Ey].
    apply in_c_inset in Ex; [| assumption].
    apply in_c_inset in Ey; [| assumption].
    exact (Hout tx ty (conj Ex Ey)). }
  unfold aa_rounded_rect, corners. cbv zeta.
  pose proof (Q Lo Lo) as Q1. pose proof (Q Hi Lo) as Q2.
  pose proof (Q Lo Hi) as Q3. pose proof (Q Hi Hi) as Q4.
  cbn [inset] in Q1, Q2, Q3, Q4. rewrite Rplus_0_l in *.
  rewrite !corner_loop_skip by assumption. reflexivity.
Qed.

(** Bounding a square root by squaring the bound. *)
Lemma sqrt_le_sq a b : 0 <= b -> a <= b * b -> sqrt a <= b.
Proof.
  intros Hb H. rewrite <- (sqrt_square b Hb). apply sqrt_le_1_alt. exact H.
Qed.

Lemma sqrt_ge_sq a b : 0 <= b -> b * b <= a -> b <= sqrt a.
Proof.
  intros Hb H. rewrite <- (sqrt_square b Hb) at 1. apply sqrt_le_1_alt. exact H.
Qed.

Lemma sqrt_lt_sq a b : 0 <= a -> 0 <= b -> a < b * b -> sqrt a < b.
Proof.
  intros Ha Hb H. rewrite <- (sqrt_square b Hb). apply sqrt_lt_1_alt. lra.
Qed.

Lemma sqrt_gt_sq a b : 0 <= b -> b * b < a -> b < sqrt a.
Proof.
  intros Hb H. rewrite <- (sqrt_square b Hb) at 1. apply sqrt_lt_1_alt. nra.
Qed.

(** *** In binary64 *)

Section Quadrants.

Local Open Scope float_scope.

Variable pow2 : float -> float.
Variables (x y size : Z) (r center : float).

Hypothesis Hlo : (r <? center) = true.
Hypothesis Hhi : (center <? Binary64.of_int size - r) = true.









End Quadrants.

Local Open Scope float_scope.



Local Close Scope float_scope.


(** ** The canvas as a row-major grid *)

Lemma nth_error_grid {A : Type} (g : nat -> nat -> A) (m : nat) :
  forall n a i j,
    (i < n)%nat -> (j < m)%nat ->
    nth_error (flat_map (fun y => map (fun x => g y x) (seq 0 m)) (seq a n))
              (i * m + j)
    = Some (g (a + i)%nat j).
Proof.
  induction n as [| n IH]; intros a i j Hi Hj; [lia |].
  cbn [seq flat_map].
  destruct i as [| i].
  - rewrite nth_error_app1 by (rewrite length_map, length_seq; lia).
    cbn [Nat.mul Nat.add]. rewrite nth_error_map.
    rewrite nth_error_seq.
    destruct (Nat.ltb_spec j m); [| lia]. cbn.
    now rewrite Nat.add_0_r.
  - rewrite nth_error_app2 by (rewrite length_map, length_seq; lia).
    rewrite length_map, length_seq.
    replace (S i * m + j - m)%nat with (i * m + j)%nat by lia.
    rewrite IH by lia. f_equal. f_equal. lia.
Qed.

Lemma length_grid {A : Type} (g : nat -> nat -> A) (m : nat) :
  forall n a,
    length (flat_map (fun y => map (fun x => g y x) (seq 0 m)) (seq a n))
    = (n * m)%nat.
Proof.
  induction n as [| n IH]; intros a; [reflexivity |].
  cbn [seq flat_map]. rewrite length_app, length_map, length_seq, IH. lia.
Qed.

Lemma flat_map_range {A : Type} (f : Z -> list A) (n : Z) :
  flat_map f (Py.range n) = flat_map (fun i => f (Z.of_nat i)) (seq 0 (Z.to_nat n)).
Proof.
  unfold Py.range. generalize (seq 0 (Z.to_nat n)); intro l.
  induction l as [| i l IH]; cbn; [reflexivity | now rewrite IH].
Qed.

(** The canvas as a grid: [draw_icon size] lists [draw_pixel] row by row. *)
Lemma draw_icon_grid (size : Z) :
  draw_icon size
  = flat_map (fun y => map (fun x => draw_pixel size (IZR size / 2) (IZR size * 0.18)
                                         (IZR size * 0.35) (Z.of_nat x) (Z.of_nat y))
                           (seq 0 (Z.to_nat size)))
             (seq 0 (Z.to_nat size)).
Proof.
  unfold draw_icon. cbv zeta. rewrite flat_map_range.
  apply flat_map_ext. intros y. unfold Py.range. now rewrite map_map.
Qed.

(** The pixel stored for column [x] of row [y]. *)
Lemma draw_icon_nth (size x y : Z) :
  (0 <= x < size)%Z -> (0 <= y < size)%Z ->
  nth_error (draw_icon size) (Z.to_nat (y * size + x))
  = Some (draw_pixel size (IZR size / 2) (IZR size * 0.18) (IZR size * 0.35) x y).
Proof.
  intros Hx Hy. rewrite draw_icon_grid.
  replace (Z.to_nat (y * size + x))
    with (Z.to_nat y * Z.to_nat size + Z.to_nat x)%nat by nia.
  rewrite nth_error_grid by lia.
  cbn [Nat.add]. now rewrite !Z2Nat.id by lia.
Qed.

Lemma draw_icon_length (size : Z) :
  length (draw_icon size) = (Z.to_nat size * Z.to_nat size)%nat.
Proof. rewrite draw_icon_grid. apply length_grid. Qed.

(** Every pixel of the canvas is [draw_pixel] at some position. *)
Lemma draw_icon_In (size : Z) (p : pixel) :
  In p (draw_icon size) ->
  exists x y, (0 <= x < size)%Z /\ (0 <= y < size)%Z
              /\ p = draw_pixel size (IZR size / 2) (IZR size * 0.18)
                                (IZR size * 0.35) x y.
Proof.
  unfold draw_icon. cbv zeta. intros H.
  apply in_flat_map in H as [y [Hy H]].
  apply in_map_iff in H as [x [Hp Hx]].
  unfold Py.range in Hx, Hy.
  apply in_map_iff in Hx as [i [<- Hi]]. apply in_map_iff in Hy as [j [<- Hj]].
  apply in_seq in Hi, Hj.
  exists (Z.of_nat i), (Z.of_nat j). repeat split; try lia. now symmetry.
Qed.

(** ** Coverage profile *)


(** *** In binary64 *)

Local Open Scope float_scope.






Local Close Scope float_scope.

(** *** With a margin, in exact arithmetic *)






(** ** The corner pixel *)

Lemma corner_pixel_coverage (size : Z) :
  (10 <= size)%Z -> aa_rounded_rect 0 0 size (IZR size * 0.18) = 0.
Proof.
  intros Hs. apply IZR_le in Hs.
  set (r := IZR size * 0.18).
  assert (Hr : 1.8 <= r) by (unfold r; lra).
  rewrite (aa_rounded_rect_corner 0 0 size r Lo Lo); try (cbn; unfold r; lra).
  assert (D : r + 0.7 <= dist 0 0 (inset size r Lo) (inset size r Lo)).
  { unfold dist, inset. apply sqrt_ge_sq; [lra | nra]. }
  unfold falloff.
  destruct (Rle_dec _ (r - 0.7)); [lra |].
  destruct (Rle_dec (r + 0.7) _); [reflexivity | lra].
Qed.

(** C8: in each generated icon (512, 192, 180 and 32) the rounded-rectangle
    coverage of pixel (0, 0) is at most 0 and the canvas starts with the
    transparent pixel (0, 0, 0, 0). *)
Theorem corner_pixel_transparent :
  Forall (fun size =>
            aa_rounded_rect 0 0 size (IZR size * 0.18) <= 0
            /\ nth_error (draw_icon size) 0 = Some (0, 0, 0, 0)%Z)
         [512; 192; 180; 32]%Z.
Proof.
  assert (G : forall size, (10 <= size)%Z ->
              aa_rounded_rect 0 0 size (IZR size * 0.18) <= 0
              /\ nth_error (draw_icon size) 0 = Some (0, 0, 0, 0)%Z).
  { intros size Hs. pose proof (corner_pixel_coverage size Hs) as E.
    split; [rewrite E; lra |].
    change 0%nat with (Z.to_nat (0 * size + 0)).
    rewrite draw_icon_nth by lia.
    unfold draw_pixel. cbv zeta. rewrite E.
    replace (Py.leb 0 0) with true by (symmetry; apply leb_true; lra).
    reflexivity. }
  repeat (apply Forall_cons; [apply G; lia |]). apply Forall_nil.
Qed.

(** ** Pixels of the canvas *)

Lemma aa_rounded_rect_range x y size r : 0 <= aa_rounded_rect x y size r <= 1.
Proof. apply corner_loop_range. Qed.

Lemma aa_circle_range x y cx cy r : 0 <= aa_circle x y cx cy r <= 1.
Proof. rewrite aa_circle_falloff. apply falloff_profile. Qed.

(** The pixel stored at a position inside the mask carries the truncated
    scaled coverage as its alpha. *)
Lemma pixel_at_alpha (size x y : Z) :
  (0 <= x < size)%Z -> (0 <= y < size)%Z ->
  aa_rounded_rect x y size (IZR size * 0.18) > 0 ->
  exists p, pixel_at size x y = Some p
            /\ alpha p = Py.int (aa_rounded_rect x y size (IZR size * 0.18) * 255).
Proof.
  intros Hx Hy Hra. unfold pixel_at. rewrite draw_icon_nth by assumption.
  eexists. split; [reflexivity |].
  unfold draw_pixel. cbv zeta.
  set (ra := aa_rounded_rect x y size (IZR size * 0.18)) in *.
  replace (Py.leb ra 0) with false by (symmetry; apply leb_false; lra).
  repeat match goal with |- context [if ?c then _ else _] => destruct c end;
    reflexivity.
Qed.

(** C1, as amended: wherever the rounded-rectangle coverage ra is
    positive, the alpha channel of the pixel is ra * 255 truncated to an
    integer, that is its floor. *)
Theorem alpha_truncates (size x y : Z) :
  (0 <= x < size)%Z -> (0 <= y < size)%Z ->
  let ra := aa_rounded_rect x y size (IZR size * 0.18) in
  ra > 0 ->
  exists p, pixel_at size x y = Some p
            /\ alpha p = Py.int (ra * 255)
            /\ alpha p = Zfloor (ra * 255)
            /\ IZR (alpha p) <= ra * 255 < IZR (alpha p) + 1.
Proof.
  intros Hx Hy ra Hra.
  destruct (pixel_at_alpha size x y Hx Hy Hra) as (p & Hp & Ha).
  exists p. fold ra in Ha. rewrite Ha.
  split; [exact Hp |]. split; [reflexivity |].
  rewrite int_nonneg by lra. split; [reflexivity | apply Zfloor_bound].
Qed.

(** C1, as stated, fails: at size 32 the pixel (1, 2) has positive
    coverage ra with 71.5 < ra * 255 < 72 and alpha 71, which is not a
    nearest integer of ra * 255. *)
Lemma alpha_round_counterexample :
  let ra := aa_rounded_rect 1 2 32 (IZR 32 * 0.18) in
  ra > 0
  /\ 71.5 < ra * 255 < 72
  /\ (exists p, pixel_at 32 1 2 = Some p /\ alpha p = 71%Z)
  /\ ~ nearest (ra * 255) 71.
Proof.
  intros ra.
  set (r := IZR 32 * 0.18) in *.
  set (d := dist 1 2 (inset 32 r Lo) (inset 32 r Lo)).
  assert (E : ra = falloff r d).
  { unfold ra, d. apply aa_rounded_rect_corner; cbn; unfold r; lra. }
  assert (D : 6.0648 < d < 6.0674).
  { unfold d, dist, inset, r. split.
    - apply sqrt_gt_sq; lra.
    - apply sqrt_lt_sq; lra. }
  assert (V : ra = (r + 0.7 - d) / 1.4).
  { rewrite E. apply falloff_profile. unfold r. lra. }
  assert (B : 71.5 < ra * 255 < 72) by (rewrite V; unfold r; lra).
  assert (P : ra > 0) by lra.
  split; [exact P |]. split; [exact B |]. split.
  - destruct (pixel_at_alpha 32 1 2) as (p & Hp & Ha); try lia.
    { exact P. }
    exists p. split; [exact Hp |]. rewrite Ha. fold r ra.
    rewrite int_nonneg by lra. apply Zfloor_eq. lra.
  - unfold nearest. rewrite Rabs_pos_eq by lra. lra.
Qed.

Lemma alpha_truncates_witness :
  (0 <= 16 < 32)%Z /\ (0 <= 16 < 32)%Z
  /\ aa_rounded_rect 16 16 32 (IZR 32 * 0.18) > 0
  /\ exists p, pixel_at 32 16 16 = Some p
               /\ alpha p = Zfloor (aa_rounded_rect 16 16 32 (IZR 32 * 0.18) * 255).
Proof.
  assert (H : (0 <= 16 < 32)%Z) by lia.
  assert (V : aa_rounded_rect 16 16 32 (IZR 32 * 0.18) = 1).
  { apply aa_rounded_rect_inner; [lra |].
    intros sx sy [Hx _]. destruct sx; cbn in Hx; lra. }
  assert (P : aa_rounded_rect 16 16 32 (IZR 32 * 0.18) > 0) by (rewrite V; lra).
  repeat (split; [assumption |]).
  destruct (alpha_truncates 32 16 16 H H P) as (p & Hp & _ & Ha & _).
  exists p. split; assumption.
Defined.

Local Open Scope float_scope.

(** The pixel [Binary64.draw_icon] stores for column [x] of row [y]. *)
Lemma draw_icon_nth64 pow2 (size x y : Z) :
  (0 <= x < size)%Z -> (0 <= y < size)%Z ->
  nth_error (Binary64.draw_icon pow2 size) (Z.to_nat (y * size + x))
  = Some (Binary64.draw_pixel pow2 size (Binary64.of_int size / 2)
            (Binary64.of_int size * 0.18) (Binary64.of_int size * 0.35) x y).
Proof.
  intros Hx Hy. unfold Binary64.draw_icon. cbv zeta. rewrite flat_map_range.
  unfold Py.range.
  rewrite (flat_map_ext _ (fun i => map (fun j => Binary64.draw_pixel pow2 size
             (Binary64.of_int size / 2) (Binary64.of_int size * 0.18)
             (Binary64.of_int size * 0.35) (Z.of_nat j) (Z.of_nat i))
             (seq 0 (Z.to_nat size))))
    by (intros i; now rewrite map_map).
  replace (Z.to_nat (y * size + x))
    with (Z.to_nat y * Z.to_nat size + Z.to_nat x)%nat by nia.
  rewrite nth_error_grid by lia.
  cbn [Nat.add]. now rewrite !Z2Nat.id by lia.
Qed.

(** C4: in binary64, whatever [pow] returns, inside the rounded-rectangle
    mask (ra > 0) the colour of a pixel is decided by the coin coverage
    ca: at ca >= 1.0 the brand colour when [is_in_b] holds at the glyph
    coordinates and white otherwise; for 0 < ca < 1.0 the floor of the
    per-channel blend brand * (1 - ca) + 255 * ca, every operation
    rounded; at ca <= 0 the brand colour. *)
Theorem pixel_colour (pow2 : float -> float) (size x y : Z) :
  (size <= 2 ^ 53)%Z -> (0 <= x < size)%Z -> (0 <= y < size)%Z ->
  let center := Binary64.of_int size / 2 in
  let coin_radius := Binary64.of_int size * 0.35 in
  let ra := Binary64.aa_rounded_rect pow2 x y size (Binary64.of_int size * 0.18) in
  let ca := Binary64.aa_circle pow2 x y center center coin_radius in
  let nx := 0.5 + (Binary64.of_int x - center) / (coin_radius * 2) in
  let ny := 0.5 + (Binary64.of_int y - center) / (coin_radius * 2) in
  (0 <? ra) = true ->
  exists p,
    Rounded.pixel_at pow2 size x y = Some p
    /\ ((1 <=? ca) = true ->
        rgb p = if Binary64.is_in_b pow2 nx ny
                then (0x10, 0xB9, 0x81)%Z else (255, 255, 255)%Z)
    /\ ((0 <? ca) = true /\ (ca <? 1) = true ->
        rgb p = (Rounded.floor (0x10 * (1 - ca) + 255 * ca),
                 Rounded.floor (0xB9 * (1 - ca) + 255 * ca),
                 Rounded.floor (0x81 * (1 - ca) + 255 * ca)))
    /\ ((ca <=? 0) = true -> rgb p = (0x10, 0xB9, 0x81)%Z).
Proof.
  intros _ Hx Hy center coin_radius ra ca nx ny Hra.
  unfold Rounded.pixel_at. rewrite draw_icon_nth64 by assumption.
  eexists. split; [reflexivity |].
  unfold Binary64.draw_pixel. cbv zeta. fold center coin_radius ra ca nx ny.
  rewrite (flt_not_fle _ _ Hra).
  change BG_R with 0x10%Z. change BG_G with 0xB9%Z. change BG_B with 0x81%Z.
  change (Binary64.of_int 0x10) with 0x10%float.
  change (Binary64.of_int 0xB9) with 0xB9%float.
  change (Binary64.of_int 0x81) with 0x81%float.
  destruct (1 <=? ca) eqn:E1; [| destruct (0 <? ca) eqn:E0].
  - split; [| split].
    + intros _. destruct (Binary64.is_in_b pow2 nx ny); reflexivity.
    + intros [_ H]. now rewrite (flt_not_fle _ _ H) in E1.
    + intros H. pose proof (fle_trans _ _ _ E1 H) as N. discriminate N.
  - split; [| split].
    + discriminate.
    + intros [_ H]. unfold rgb; cbn [red green blue].
      rewrite !blend_floor by (assumption || reflexivity). reflexivity.
    + intros H. now rewrite (fle_not_flt _ _ H) in E0.
  - split; [| split].
    + discriminate.
    + intros [H _]. discriminate.
    + intros _. reflexivity.
Qed.

(** On the rim of the coin of the favicon: pixel (16, 5) has coverage
    0.64 and is a blend. *)
Lemma pixel_colour_witness :
  exists p, Rounded.pixel_at Binary64.sq 32 16 5 = Some p
            /\ rgb p = (169, 229, 209)%Z.
Proof.
  destruct (pixel_colour Binary64.sq 32 16 5) as (p & Hp & _ & H & _);
    [lia | lia | lia | vm_compute; reflexivity |].
  exists p. split; [exact Hp |]. rewrite H; [vm_compute; reflexivity |].
  split; vm_compute; reflexivity.
Defined.

Local Close Scope float_scope.

(** ** Glyph coordinates *)

Lemma abs_le_sqrt a b : Rabs a <= sqrt (a ^ 2 + b ^ 2).
Proof.
  apply sqrt_ge_sq; [apply Rabs_pos |].
  unfold Rabs. destruct (Rcase_abs a); nra.
Qed.

Lemma abs_le_dist_x x y cx cy : Rabs (IZR x - cx) <= dist x y cx cy.
Proof. apply abs_le_sqrt. Qed.

Lemma abs_le_dist_y x y cx cy : Rabs (IZR y - cy) <= dist x y cx cy.
Proof. unfold dist. rewrite Rplus_comm. apply abs_le_sqrt. Qed.

Lemma falloff_full r d : falloff r d >= 1 -> d <= r - 0.7.
Proof.
  unfold falloff.
  destruct (Rle_dec d (r - 0.7)); [lra |].
  destruct (Rle_dec (r + 0.7) d); lra.
Qed.

Lemma normalised_inside a r :
  0 < r -> Rabs a < r -> 0 < 0.5 + a / (r * 2) < 1.
Proof.
  intros Hr Ha.
  assert (Hq : a / (r * 2) * (r * 2) = a) by (field; lra).
  set (q := a / (r * 2)) in *.
  apply Rabs_def2 in Ha as [Ha1 Ha2].
  split; nra.
Qed.

(** C9: whenever the coin coverage at a pixel reaches 1, the pixel is at
    distance at most coin_r - 0.7 from the canvas centre, and the
    normalised coordinates handed to [is_in_b] lie strictly between 0 and
    1. *)
Theorem glyph_coordinates_inside (size x y : Z) :
  (0 < size)%Z ->
  let center := IZR size / 2 in
  let coin_r := IZR size * 0.35 in
  let ca := aa_circle x y center center coin_r in
  let nx := 0.5 + (IZR x - center) / (coin_r * 2) in
  let ny := 0.5 + (IZR y - center) / (coin_r * 2) in
  Py.geb ca 1 = true ->
  dist x y center center <= coin_r - 0.7
  /\ 0 < nx < 1 /\ 0 < ny < 1.
Proof.
  intros Hs center coin_r ca nx ny Hca.
  apply geb_true in Hca. unfold ca in Hca. rewrite aa_circle_falloff in Hca.
  apply falloff_full in Hca.
  assert (Hr : 0 < coin_r) by (unfold coin_r; apply IZR_lt in Hs; lra).
  pose proof (abs_le_dist_x x y center center).
  pose proof (abs_le_dist_y x y center center).
  split; [exact Hca |].
  split; apply normalised_inside; lra.
Qed.

Lemma glyph_coordinates_inside_witness :
  (0 < 32)%Z
  /\ Py.geb (aa_circle 16 16 (IZR 32 / 2) (IZR 32 / 2) (IZR 32 * 0.35)) 1 = true
  /\ 0 < 0.5 + (IZR 16 - IZR 32 / 2) / (IZR 32 * 0.35 * 2) < 1.
Proof.
  assert (H : (0 < 32)%Z) by lia.
  assert (C : Py.geb (aa_circle 16 16 (IZR 32 / 2) (IZR 32 / 2) (IZR 32 * 0.35)) 1 = true).
  { apply geb_true. rewrite aa_circle_falloff.
    assert (D : dist 16 16 (IZR 32 / 2) (IZR 32 / 2) <= IZR 32 * 0.35 - 0.7).
    { unfold dist. apply sqrt_le_sq; lra. }
    unfold falloff. destruct (Rle_dec _ (IZR 32 * 0.35 - 0.7)); lra. }
  repeat (split; [assumption |]).
  exact (proj1 (proj2 (glyph_coordinates_inside 32 16 16 H C))).
Defined.

(** ** Channel ranges *)

Lemma draw_pixel_valid size x y :
  valid_pixel (draw_pixel size (IZR size / 2) (IZR size * 0.18) (IZR size * 0.35) x y).
Proof.
  unfold draw_pixel. cbv zeta.
  pose proof (aa_rounded_rect_range x y size (IZR size * 0.18)) as Hra.
  pose proof (aa_circle_range x y (IZR size / 2) (IZR size / 2) (IZR size * 0.35)) as Hca.
  set (ra := aa_rounded_rect x y size (IZR size * 0.18)) in *.
  set (ca := aa_circle x y (IZR size / 2) (IZR size / 2) (IZR size * 0.35)) in *.
  assert (A : channel (Py.int (ra * 255))).
  { apply int_bounds; lra. }
  unfold BG_R, BG_G, BG_B.
  cmp_case (Py.leb ra 0); [| cmp_case (Py.geb ca 1); [| cmp_case (Py.gtb ca 0)]].
  all: try destruct (is_in_b _ _).
  all: unfold valid_pixel; cbn [red green blue alpha];
    split; [| split; [| split]];
    first [ exact A | unfold channel; lia | apply int_bounds; nra ].
Qed.

Lemma draw_icon_valid size : Forall valid_pixel (draw_icon size).
Proof.
  apply Forall_forall. intros p Hp.
  apply draw_icon_In in Hp as (x & y & _ & _ & ->). apply draw_pixel_valid.
Qed.

(** ** Byte-level lemmas *)

Local Open Scope Z_scope.

Example crc32_IEND : zlib.crc32 IEND = 0xAE426082.
Proof. vm_compute. reflexivity. Qed.

Example crc32_check : zlib.crc32 (bytes_of [49;50;51;52;53;54;55;56;57]) = 0xCBF43926.
Proof. vm_compute. reflexivity. Qed.

Example BG_vals : (BG_R, BG_G, BG_B) = (16, 185, 129).
Proof. reflexivity. Qed.

Lemma lxor_range a b n :
  0 <= n -> 0 <= a < 2 ^ n -> 0 <= b < 2 ^ n -> 0 <= Z.lxor a b < 2 ^ n.
Proof.
  intros Hn Ha Hb.
  assert (H0 : 0 <= Z.lxor a b) by (apply Z.lxor_nonneg; lia).
  split; [exact H0 |].
  destruct (Z.eq_dec (Z.lxor a b) 0) as [-> | Hne]; [apply Z.pow_pos_nonneg; lia |].
  assert (Hn' : 0 < n).
  { destruct (Z.eq_dec n 0) as [-> | ?]; [| lia].
    change (2 ^ 0) with 1 in *.
    assert (a = 0) by lia. assert (b = 0) by lia. subst. now cbn in Hne. }
  apply Z.log2_lt_pow2; [lia |].
  eapply Z.le_lt_trans; [apply Z.log2_lxor; lia |].
  apply Z.max_lub_lt.
  - destruct (Z.eq_dec a 0) as [-> | ?]; [cbn; lia |].
    apply Z.log2_lt_pow2; lia.
  - destruct (Z.eq_dec b 0) as [-> | ?]; [cbn; lia |].
    apply Z.log2_lt_pow2; lia.
Qed.

Lemma crc_bit_range c : 0 <= c < 2 ^ 32 -> 0 <= zlib.crc_bit c < 2 ^ 32.
Proof.
  intros Hc. unfold zlib.crc_bit.
  assert (Hs : 0 <= Z.shiftr c 1 < 2 ^ 32).
  { rewrite Z.shiftr_div_pow2 by lia. change (2 ^ 1) with 2.
    split; [apply Z.div_pos; lia |].
    apply Z.div_lt_upper_bound; lia. }
  destruct (Z.testbit c 0); [| exact Hs].
  apply lxor_range; [lia | exact Hs | lia].
Qed.

Lemma byte_unsigned_range b : 0 <= byte.unsigned b < 2 ^ 8.
Proof.
  unfold byte.unsigned. pose proof (Byte.to_N_bounded b) as H.
  change (2 ^ 8) with 256. lia.
Qed.

Lemma crc_byte_range c b : 0 <= c < 2 ^ 32 -> 0 <= zlib.crc_byte c b < 2 ^ 32.
Proof.
  intros Hc. unfold zlib.crc_byte. cbv zeta.
  do 8 apply crc_bit_range.
  apply lxor_range; [lia | exact Hc |].
  pose proof (byte_unsigned_range b). lia.
Qed.

Lemma crc32_range data : 0 <= zlib.crc32 data < 2 ^ 32.
Proof.
  unfold zlib.crc32.
  assert (H : forall c, 0 <= c < 2 ^ 32 -> 0 <= fold_left zlib.crc_byte data c < 2 ^ 32).
  { induction data as [| b data IH]; intros c Hc; cbn [fold_left]; [exact Hc |].
    apply IH, crc_byte_range, Hc. }
  apply lxor_range; [lia | apply H; lia | lia].
Qed.

Lemma crc32_mask data : Z.land (zlib.crc32 data) 0xFFFFFFFF = zlib.crc32 data.
Proof.
  change 0xFFFFFFFF with (Z.ones 32).
  rewrite Z.land_ones by lia. apply Z.mod_small, crc32_range.
Qed.

Lemma fits_true n v : 0 <= v < 2 ^ (8 * Z.of_nat n) -> struct.fits n v = true.
Proof. intros H. unfold struct.fits. apply andb_true_iff. lia. Qed.

Lemma pack_be_ok n v :
  0 <= v < 2 ^ (8 * Z.of_nat n) -> struct.pack_be n v = Ok (rev (le_split n v)).
Proof. intros H. unfold struct.pack_be. now rewrite fits_true. Qed.

Lemma pack_le_ok n v :
  0 <= v < 2 ^ (8 * Z.of_nat n) -> struct.pack_le n v = Ok (le_split n v).
Proof. intros H. unfold struct.pack_le. now rewrite fits_true. Qed.

Lemma unpack_be_split n v :
  0 <= v < 2 ^ (8 * Z.of_nat n) -> struct.unpack_be (rev (le_split n v)) = v.
Proof.
  intros H. unfold struct.unpack_be. rewrite rev_involutive, le_combine_split.
  apply Z.mod_small. now rewrite Z.mul_comm.
Qed.

Lemma length_be n v : length (rev (le_split n v)) = n.
Proof. now rewrite length_rev, length_le_split. Qed.

Lemma firstn_app_len {A : Type} n (a b : list A) :
  length a = n -> firstn n (a ++ b) = a.
Proof.
  intros <-. rewrite firstn_app, Nat.sub_diag, firstn_all. cbn. apply app_nil_r.
Qed.

Lemma skipn_app_len {A : Type} n (a b : list A) :
  length a = n -> skipn n (a ++ b) = b.
Proof.
  intros <-. rewrite skipn_app, Nat.sub_diag, skipn_all. reflexivity.
Qed.

(** ** The PNG container, read back *)

Lemma length_frame t d : length (frame t d) = (12 + length t + length d - 4)%nat.
Proof.
  unfold frame. rewrite !length_app, !length_be. lia.
Qed.

Lemma read_chunks_step fuel bs :
  bs <> [] ->
  Png.read_chunks (S fuel) bs
  = let n := Z.to_nat (struct.unpack_be (firstn 4 bs)) in
    let ty := firstn 4 (skipn 4 bs) in
    let data := firstn n (skipn 8 bs) in
    let crc := firstn 4 (skipn n (skipn 8 bs)) in
    if (length bs <? 12 + n)%nat then None
    else if struct.unpack_be crc =? zlib.crc32 (ty ++ data) then
      option_map (cons (ty, data))
                 (Png.read_chunks fuel (skipn 4 (skipn n (skipn 8 bs))))
    else None.
Proof. destruct bs; [congruence | reflexivity]. Qed.

Lemma read_chunks_frame fuel t d rest :
  length t = 4%nat -> len d < 2 ^ 32 ->
  Png.read_chunks (S fuel) (frame t d ++ rest)
  = option_map (cons (t, d)) (Png.read_chunks fuel rest).
Proof.
  intros Ht Hd.
  assert (Hl : 0 <= len d < 2 ^ (8 * Z.of_nat 4)) by (unfold len in *; lia).
  pose proof (crc32_range (t ++ d)) as Hc.
  set (L := rev (le_split 4 (len d))).
  set (C := rev (le_split 4 (zlib.crc32 (t ++ d)))).
  assert (HL : length L = 4%nat) by apply length_be.
  assert (HC : length C = 4%nat) by apply length_be.
  assert (E : frame t d ++ rest = L ++ (t ++ (d ++ (C ++ rest)))).
  { unfold frame. fold L C. now rewrite <- !app_assoc. }
  rewrite E. clear E.
  rewrite read_chunks_step
    by (intros N; apply (f_equal (@length byte)) in N;
        rewrite length_app in N; cbn in N; lia).
  cbv zeta.
  assert (S8 : skipn 8 (L ++ t ++ d ++ C ++ rest) = d ++ C ++ rest).
  { change 8%nat with (4 + 4)%nat. rewrite <- skipn_skipn.
    rewrite (skipn_app_len 4 L) by exact HL. now apply skipn_app_len. }
  rewrite S8.
  rewrite (firstn_app_len 4 L) by exact HL.
  rewrite (skipn_app_len 4 L) by exact HL.
  rewrite (firstn_app_len 4 t) by exact Ht.
  assert (U : Z.to_nat (struct.unpack_be L) = length d).
  { unfold L. rewrite unpack_be_split by exact Hl. unfold len. apply Nat2Z.id. }
  assert (V : struct.unpack_be C = zlib.crc32 (t ++ d)).
  { unfold C. apply unpack_be_split. change (8 * Z.of_nat 4) with 32. exact Hc. }
  rewrite !U.
  rewrite (firstn_app_len (length d) d) by reflexivity.
  rewrite (skipn_app_len (length d) d) by reflexivity.
  rewrite (firstn_app_len 4 C) by exact HC.
  rewrite (skipn_app_len 4 C) by exact HC.
  rewrite V.
  rewrite Z.eqb_refl.
  destruct (Nat.ltb_spec (length (L ++ t ++ d ++ C ++ rest)) (12 + length d))
    as [Hlt | _]; [| reflexivity].
  rewrite !length_app, HL, HC, Ht in Hlt. lia.
Qed.

(** ** The encoder succeeds on well-formed input *)

Lemma In_range x n : In x (Py.range n) <-> 0 <= x < n.
Proof.
  unfold Py.range. rewrite in_map_iff. split.
  - intros [i [<- Hi]]. apply in_seq in Hi. lia.
  - intros H. exists (Z.to_nat x). split; [lia |]. apply in_seq. lia.
Qed.

Lemma pack_pixel_ok r g b a :
  valid_pixel (r, g, b, a) ->
  struct.pack false [struct.B; struct.B; struct.B; struct.B] [r; g; b; a]
  = Ok [byte.of_Z r; byte.of_Z g; byte.of_Z b; byte.of_Z a].
Proof.
  unfold valid_pixel, channel. cbn [red green blue alpha].
  intros (Hr & Hg & Hb & Ha).
  cbn [struct.pack struct.width].
  rewrite !pack_le_ok by (change (2 ^ (8 * Z.of_nat 1)) with 256; lia).
  reflexivity.
Qed.

Lemma row_loop_ok width pixels y xs :
  (forall x, In x xs ->
             exists p, nth_error pixels (Z.to_nat (y * width + x)) = Some p
                       /\ valid_pixel p) ->
  forall raw, exists raw', row_loop width pixels y xs raw = Ok raw'.
Proof.
  induction xs as [| x xs IH]; intros H raw; cbn [row_loop].
  - now exists raw.
  - destruct (H x (or_introl eq_refl)) as ([[[r g] b] a] & -> & Hv).
    rewrite pack_pixel_ok by exact Hv. cbn [bind].
    apply IH. intros x' Hx'. apply H. now right.
Qed.

Lemma rows_loop_ok width pixels ys :
  (forall x y, In x (Py.range width) -> In y ys ->
               exists p, nth_error pixels (Z.to_nat (y * width + x)) = Some p
                         /\ valid_pixel p) ->
  forall raw, exists raw', rows_loop width pixels ys raw = Ok raw'.
Proof.
  induction ys as [| y ys IH]; intros H raw; cbn [rows_loop].
  - now exists raw.
  - destruct (row_loop_ok width pixels y (Py.range width)) with (raw := raw ++ [byte.of_Z 0])
      as [raw' ->].
    { intros x Hx. apply H; [exact Hx | now left]. }
    cbn [bind]. apply IH. intros x y' Hx Hy'. apply H; [exact Hx | now right].
Qed.

Lemma scanlines_ok width height pixels :
  (forall x y, 0 <= x < width -> 0 <= y < height ->
               exists p, nth_error pixels (Z.to_nat (y * width + x)) = Some p
                         /\ valid_pixel p) ->
  exists raw, scanlines width height pixels = Ok raw.
Proof.
  intros H. unfold scanlines. apply rows_loop_ok.
  intros x y Hx Hy. apply In_range in Hx, Hy. now apply H.
Qed.

Lemma scanlines_ok_list width height pixels :
  len pixels = width * height -> Forall valid_pixel pixels ->
  exists raw, scanlines width height pixels = Ok raw.
Proof.
  intros Hl Hv. apply scanlines_ok. intros x y Hx Hy.
  destruct (nth_error pixels (Z.to_nat (y * width + x))) as [p |] eqn:E.
  - exists p. split; [reflexivity |].
    rewrite Forall_forall in Hv. eapply Hv, nth_error_In, E.
  - apply nth_error_None in E. unfold len in Hl. nia.
Qed.

Lemma chunk_ok t d : len d < 2 ^ 32 -> chunk t d = Ok (frame t d).
Proof.
  intros Hd. unfold chunk. cbv zeta.
  rewrite crc32_mask.
  rewrite pack_be_ok by (change (8 * Z.of_nat 4) with 32; apply crc32_range).
  cbn [bind].
  rewrite pack_be_ok by (change (8 * Z.of_nat 4) with 32; unfold len in *; lia).
  cbn [bind]. unfold frame. now rewrite <- !app_assoc.
Qed.

Lemma chunk_too_long t d : 2 ^ 32 <= len d -> chunk t d = Raise StructError.
Proof.
  intros Hd. unfold chunk. cbv zeta.
  rewrite crc32_mask.
  rewrite pack_be_ok by (change (8 * Z.of_nat 4) with 32; apply crc32_range).
  cbn [bind]. unfold struct.pack_be, struct.fits.
  replace (len d <? 2 ^ (8 * Z.of_nat 4)) with false
    by (symmetry; apply Z.ltb_ge; exact Hd).
  now rewrite andb_false_r.
Qed.

Lemma pack_ihdr_ok width height :
  0 <= width < 2 ^ 32 -> 0 <= height < 2 ^ 32 ->
  struct.pack true
    [struct.I; struct.I; struct.B; struct.B; struct.B; struct.B; struct.B]
    [width; height; 8; 6; 0; 0; 0]
  = Ok (ihdr_data width height).
Proof.
  intros Hw Hh. cbn [struct.pack struct.width].
  rewrite (pack_be_ok 4 width), (pack_be_ok 4 height)
    by (change (8 * Z.of_nat 4) with 32; assumption).
  reflexivity.
Qed.

Lemma pack_ihdr_wide width height :
  2 ^ 32 <= width ->
  struct.pack true
    [struct.I; struct.I; struct.B; struct.B; struct.B; struct.B; struct.B]
    [width; height; 8; 6; 0; 0; 0]
  = Raise StructError.
Proof.
  intros Hw. cbn [struct.pack struct.width].
  unfold struct.pack_be at 1, struct.fits.
  replace (width <? 2 ^ (8 * Z.of_nat 4)) with false
    by (symmetry; apply Z.ltb_ge; exact Hw).
  now rewrite andb_false_r.
Qed.

Lemma length_ihdr_data width height : length (ihdr_data width height) = 13%nat.
Proof. unfold ihdr_data. rewrite !length_app, !length_be. reflexivity. Qed.

(** The byte stream [make_png] returns once its three fallible steps
    (header packing, scanlines, chunk framing) have gone through. *)
Lemma make_png_ok zlib_compress width height pixels raw :
  0 <= width < 2 ^ 32 -> 0 <= height < 2 ^ 32 ->
  scanlines width height pixels = Ok raw ->
  len (zlib_compress raw 9) < 2 ^ 32 ->
  make_png zlib_compress width height pixels
  = Ok (sig ++ frame IHDR (ihdr_data width height)
            ++ frame IDAT (zlib_compress raw 9) ++ frame IEND []).
Proof.
  intros Hw Hh Hraw Hz. unfold make_png.
  rewrite pack_ihdr_ok by assumption. cbn [bind].
  rewrite Hraw. cbn [bind]. cbv zeta.
  rewrite (chunk_ok IHDR) by (unfold len; rewrite length_ihdr_data; cbn; lia).
  cbn [bind].
  rewrite (chunk_ok IDAT) by exact Hz. cbn [bind].
  rewrite (chunk_ok IEND) by (cbn; lia).
  reflexivity.
Qed.

Lemma decode_frames ihdr z :
  len ihdr < 2 ^ 32 -> len z < 2 ^ 32 ->
  Png.decode (sig ++ frame IHDR ihdr ++ frame IDAT z ++ frame IEND [])
  = Some [(IHDR, ihdr); (IDAT, z); (IEND, [])].
Proof.
  intros Hi Hz. unfold Png.decode.
  rewrite (firstn_app_len 8 sig) by reflexivity.
  rewrite (skipn_app_len 8 sig) by reflexivity.
  destruct (list_eq_dec _ sig sig) as [_ | N]; [| congruence].
  remember (length (sig ++ frame IHDR ihdr ++ frame IDAT z ++ frame IEND [])) as f eqn:Ef.
  assert (Hf : (3 <= f)%nat).
  { subst f. rewrite length_app. cbn. lia. }
  destruct f as [| [| [| f]]]; try lia.
  rewrite read_chunks_frame by (try reflexivity; assumption). 
  rewrite read_chunks_frame by (try reflexivity; assumption).
  rewrite <- (app_nil_r (frame IEND [])).
  rewrite read_chunks_frame by (try reflexivity; cbn; lia).
  destruct f; reflexivity.
Qed.

Example sig_bytes :
  sig = [Byte.x89; Byte.x50; Byte.x4e; Byte.x47; Byte.x0d; Byte.x0a; Byte.x1a; Byte.x0a]
  /\ IHDR = [Byte.x49; Byte.x48; Byte.x44; Byte.x52]
  /\ IDAT = [Byte.x49; Byte.x44; Byte.x41; Byte.x54]
  /\ IEND = [Byte.x49; Byte.x45; Byte.x4e; Byte.x44].
Proof. repeat split. Qed.

(** C5, as amended: for width and height between 1 and 2^32 - 1, a
    sequence of width * height pixels with 8-bit channels, and a compressed
    scanline stream shorter than 2^32 bytes, the encoder returns the 8-byte
    signature followed by exactly the chunks IHDR, IDAT and IEND in that
    order, each framed as big-endian length, type, data and big-endian
    CRC-32 of type and data, so that reading the stream back with the CRCs
    recomputed yields these three chunks. *)
Theorem make_png_chunks (zlib_compress : list byte -> Z -> list byte)
        (width height : Z) (pixels : list pixel) :
  0 < width < 2 ^ 32 -> 0 < height < 2 ^ 32 ->
  len pixels = width * height -> Forall valid_pixel pixels ->
  (forall raw, scanlines width height pixels = Ok raw ->
               len (zlib_compress raw 9) < 2 ^ 32) ->
  exists raw png,
    scanlines width height pixels = Ok raw
    /\ make_png zlib_compress width height pixels = Ok png
    /\ firstn 8 png = sig
    /\ png = sig ++ frame IHDR (ihdr_data width height)
                 ++ frame IDAT (zlib_compress raw 9) ++ frame IEND []
    /\ Png.decode png
       = Some [(IHDR, ihdr_data width height); (IDAT, zlib_compress raw 9); (IEND, [])].
Proof.
  intros Hw Hh Hl Hv Hz.
  destruct (scanlines_ok_list width height pixels Hl Hv) as [raw Hraw].
  specialize (Hz raw Hraw).
  exists raw.
  exists (sig ++ frame IHDR (ihdr_data width height)
              ++ frame IDAT (zlib_compress raw 9) ++ frame IEND []).
  split; [exact Hraw |].
  split; [apply make_png_ok; [lia | lia | exact Hraw | exact Hz] |].
  split; [apply (firstn_app_len 8 sig); reflexivity |].
  split; [reflexivity |].
  apply decode_frames; [| exact Hz].
  unfold len. rewrite length_ihdr_data. cbn. lia.
Qed.

Lemma make_png_chunks_witness :
  exists raw png,
    scanlines 1 1 [(0, 0, 0, 0)] = Ok raw
    /\ make_png (fun data _ => data) 1 1 [(0, 0, 0, 0)] = Ok png
    /\ Png.decode png = Some [(IHDR, ihdr_data 1 1); (IDAT, raw); (IEND, [])].
Proof.
  destruct (make_png_chunks (fun data _ => data) 1 1 [(0, 0, 0, 0)])
    as (raw & png & H1 & H2 & _ & _ & H3).
  - lia.
  - lia.
  - reflexivity.
  - repeat constructor; cbn; lia.
  - intros raw H. vm_compute in H. injection H as <-. vm_compute. reflexivity.
  - exists raw, png. repeat split; assumption.
Defined.

Lemma make_png_wide zlib_compress width height pixels :
  2 ^ 32 <= width ->
  make_png zlib_compress width height pixels = Raise StructError.
Proof.
  intros Hw. unfold make_png. now rewrite pack_ihdr_wide by exact Hw.
Qed.

(** C5, as stated for every width, fails: at width 2^32 and height 1, with
    2^32 transparent pixels, packing the IHDR width raises [struct.error]
    and no byte stream is returned. *)
Lemma make_png_counterexample :
  let width := 2 ^ 32 in
  let pixels := repeat (0, 0, 0, 0) (Z.to_nat width) in
  0 < width /\ 0 < 1
  /\ len pixels = width * 1
  /\ Forall valid_pixel pixels
  /\ forall zlib_compress,
      make_png zlib_compress width 1 pixels = Raise StructError.
Proof.
  intros width pixels.
  assert (Hw : 2 ^ 32 <= width) by (unfold width; lia).
  split; [lia |]. split; [lia |]. split; [| split].
  - unfold pixels, len. rewrite repeat_length. lia.
  - apply Forall_forall. intros p Hp. apply repeat_spec in Hp. subst p.
    repeat split; cbn; lia.
  - intros zc. apply make_png_wide. exact Hw.
Qed.

Lemma draw_icon_scanlines (size : Z) :
  exists raw, scanlines size size (draw_icon size) = Ok raw.
Proof.
  apply scanlines_ok. intros x y Hx Hy.
  rewrite draw_icon_nth by assumption.
  eexists. split; [reflexivity | apply draw_pixel_valid].
Qed.

(** C10: every pixel of [draw_icon size] has its four channels in
    [0, 255], so each [struct.pack('BBBB', ...)] of the encoder succeeds on
    it and the scanline loop over the canvas runs to completion. *)
Theorem draw_icon_channels (size : Z) :
  Forall valid_pixel (draw_icon size)
  /\ Forall (fun p => exists bs,
                 struct.pack false [struct.B; struct.B; struct.B; struct.B]
                             [red p; green p; blue p; alpha p] = Ok bs)
            (draw_icon size)
  /\ exists raw, scanlines size size (draw_icon size) = Ok raw.
Proof.
  split; [apply draw_icon_valid |]. split.
  - eapply Forall_impl; [| apply draw_icon_valid].
    intros [[[r g] b] a] Hv. eexists. apply pack_pixel_ok. exact Hv.
  - apply draw_icon_scanlines.
Qed.

(** ** The ICO container *)

Lemma pack_ico_header :
  struct.pack false [struct.H; struct.H; struct.H] [0; 1; 1]
  = Ok (bytes_of [0; 0; 1; 0; 1; 0]).
Proof. reflexivity. Qed.

Lemma pack_ico_entry n :
  0 <= n < 2 ^ 32 ->
  struct.pack false
    [struct.B; struct.B; struct.B; struct.B; struct.H; struct.H; struct.I; struct.I]
    [32; 32; 0; 0; 1; 32; n; 22]
  = Ok (bytes_of [32; 32; 0; 0; 1; 0; 32; 0] ++ le_split 4 n ++ bytes_of [22; 0; 0; 0]).
Proof.
  intros Hn. cbn [struct.pack struct.width].
  rewrite (pack_le_ok 4 n) by (change (8 * Z.of_nat 4) with 32; exact Hn).
  reflexivity.
Qed.

Lemma pack_ico_entry_long n :
  2 ^ 32 <= n ->
  struct.pack false
    [struct.B; struct.B; struct.B; struct.B; struct.H; struct.H; struct.I; struct.I]
    [32; 32; 0; 0; 1; 32; n; 22]
  = Raise StructError.
Proof.
  intros Hn. cbn [struct.pack struct.width].
  assert (E : struct.pack_le 4 n = Raise StructError).
  { unfold struct.pack_le, struct.fits.
    replace (n <? 2 ^ (8 * Z.of_nat 4)) with false by (symmetry; apply Z.ltb_ge; exact Hn).
    now rewrite andb_false_r. }
  rewrite E. reflexivity.
Qed.

Lemma read_ico_layout png_data :
  len png_data < 2 ^ 32 ->
  Ico.read (ico_layout png_data)
  = {| Ico.reserved := 0; Ico.kind := 1; Ico.count := 1;
       Ico.width := 32; Ico.height := 32;
       Ico.colours := 0; Ico.entry_reserved := 0;
       Ico.planes := 1; Ico.bit_count := 32;
       Ico.image_size := len png_data;
       Ico.image_offset := 22;
       Ico.image := png_data |}.
Proof.
  intros Hn.
  assert (S14 : skipn 14 (ico_layout png_data)
                = le_split 4 (len png_data) ++ bytes_of [22; 0; 0; 0] ++ png_data)
    by reflexivity.
  assert (S18 : skipn 18 (ico_layout png_data) = bytes_of [22; 0; 0; 0] ++ png_data).
  { change 18%nat with (4 + 14)%nat. rewrite <- skipn_skipn, S14.
    apply skipn_app_len, length_le_split. }
  assert (F14 : Ico.field 4 14 (ico_layout png_data) = len png_data).
  { unfold Ico.field. rewrite S14.
    rewrite firstn_app_len by apply length_le_split.
    rewrite le_combine_split. apply Z.mod_small. unfold len in *. lia. }
  assert (F18 : Ico.field 4 18 (ico_layout png_data) = 22).
  { unfold Ico.field. rewrite S18. reflexivity. }
  unfold Ico.read. rewrite F14, F18.
  assert (S22 : skipn (Z.to_nat 22) (ico_layout png_data) = png_data).
  { change (Z.to_nat 22) with (4 + 18)%nat. rewrite <- skipn_skipn, S18. reflexivity. }
  rewrite S22. reflexivity.
Qed.

Lemma length_ico_layout png_data :
  len (ico_layout png_data) = 6 + 16 + len png_data.
Proof.
  unfold len, ico_layout. rewrite !length_app, length_le_split. cbn [length ico_prefix bytes_of map app]. lia.
Qed.

(** C7: the bytes written to favicon.ico are the 6-byte header (0, 1, 1),
    the 16-byte entry (32, 32, 0, 0, 1, 32, length of the PNG, 22) and the
    32 x 32 PNG stream itself, 6 + 16 + len(png) bytes in all; and they are
    produced as soon as the compressed scanlines are short enough for the
    4-byte length fields. *)
Theorem favicon_ico_layout (zlib_compress : list byte -> Z -> list byte) :
  (forall ico,
      favicon_ico zlib_compress = Ok ico ->
      exists png_data,
        make_png zlib_compress 32 32 (draw_icon 32) = Ok png_data
        /\ ico = bytes_of [0; 0; 1; 0; 1; 0]
                 ++ (bytes_of [32; 32; 0; 0; 1; 0; 32; 0]
                     ++ le_split 4 (len png_data) ++ bytes_of [22; 0; 0; 0])
                 ++ png_data
        /\ Ico.read ico
           = {| Ico.reserved := 0; Ico.kind := 1; Ico.count := 1;
                Ico.width := 32; Ico.height := 32;
                Ico.colours := 0; Ico.entry_reserved := 0;
                Ico.planes := 1; Ico.bit_count := 32;
                Ico.image_size := len png_data;
                Ico.image_offset := 22;
                Ico.image := png_data |}
        /\ len ico = 6 + 16 + len png_data)
  /\ ((forall raw, scanlines 32 32 (draw_icon 32) = Ok raw ->
                   len (zlib_compress raw 9) < 2 ^ 32 - 57) ->
      exists ico, favicon_ico zlib_compress = Ok ico).
Proof.
  split.
  - intros ico H. unfold favicon_ico in H. cbv zeta in H.
    destruct (make_png zlib_compress 32 32 (draw_icon 32)) as [png |]; [| discriminate].
    exists png. split; [reflexivity |].
    cbn [bind] in H. rewrite pack_ico_header in H. cbn [bind] in H.
    destruct (Z_lt_le_dec (len png) (2 ^ 32)) as [Hlt | Hge].
    + rewrite pack_ico_entry in H by (unfold len in *; lia).
      cbn [bind] in H.
      assert (E : ico = ico_layout png) by (injection H as <-; reflexivity).
      clear H. subst ico.
      split; [reflexivity |].
      split; [apply read_ico_layout; exact Hlt | apply length_ico_layout].
    + rewrite pack_ico_entry_long in H by exact Hge. discriminate.
  - intros Hz.
    destruct (draw_icon_scanlines 32) as [raw Hraw].
    specialize (Hz raw Hraw).
    unfold favicon_ico. cbv zeta.
    rewrite (make_png_ok zlib_compress 32 32 (draw_icon 32) raw) by (lia || assumption).
    cbn [bind]. rewrite pack_ico_header. cbn [bind].
    rewrite pack_ico_entry.
    + cbn [bind]. eexists. reflexivity.
    + unfold len in *. rewrite !length_app, !length_frame, length_ihdr_data. cbn [length sig IHDR IDAT IEND bytes_of map].
      lia.
Qed.

Lemma favicon_ico_layout_witness :
  exists ico png_data,
    favicon_ico (fun _ _ => []) = Ok ico
    /\ make_png (fun _ _ => []) 32 32 (draw_icon 32) = Ok png_data
    /\ len ico = 6 + 16 + len png_data.
Proof.
  destruct (favicon_ico_layout (fun _ _ => [])) as [Hlayout Hexists].
  destruct Hexists as [ico Hico].
  { intros raw _. cbn. lia. }
  destruct (Hlayout ico Hico) as (png & Hpng & _ & _ & Hlen).
  exists ico, png. repeat split; assumption.
Defined.

(** ** The generated pixels in binary64 arithmetic

    The concrete pixels singled out above, evaluated with the rounding of
    Python floats and the correctly rounded square for [pow]. *)

(** The corner pixel of each generated icon is transparent. *)
Example binary64_corner_pixel :
  map (fun size => Binary64.draw_pixel Binary64.sq size
                     (Binary64.of_int size / 2)%float
                     (Binary64.of_int size * 0.18)%float
                     (Binary64.of_int size * 0.35)%float 0 0)
      [512; 192; 180; 32]
  = [ (0, 0, 0, 0); (0, 0, 0, 0); (0, 0, 0, 0); (0, 0, 0, 0) ].
Proof. vm_compute. reflexivity. Qed.

(** At size 32 the pixel (1, 2) has alpha 71 while ra * 255 exceeds 71.5. *)
Example binary64_alpha_truncated :
  let ra := Binary64.aa_rounded_rect Binary64.sq 1 2 32 (Binary64.of_int 32 * 0.18)%float in
  (71.5 <? ra * 255)%float = true
  /\ (ra * 255 <? 72)%float = true
  /\ Binary64.draw_pixel Binary64.sq 32 (Binary64.of_int 32 / 2)%float
                         (Binary64.of_int 32 * 0.18)%float
                         (Binary64.of_int 32 * 0.35)%float 1 2
     = (16, 185, 129, 71).
Proof. vm_compute. repeat split. Qed.

(** With size 20 and radius 5 the pixel (0, 5) gets full coverage, whatever
    [pow] returns, and the circular falloff around the corner centre (5, 5)
    would be one half, up to rounding. *)
Example binary64_nearer_quadrant :
  (forall pow2, Binary64.aa_rounded_rect pow2 0 5 20 5 = 1%float)
  /\ (0.49 <? Binary64.aa_circle Binary64.sq 0 5 5 5 5)%float = true
  /\ (Binary64.aa_circle Binary64.sq 0 5 5 5 5 <? 0.51)%float = true.
Proof. split; [intros pow2 |]; vm_compute; repeat split. Qed.

(** With size 10 and radius 9 the pixel (8, 8) gets no coverage. *)
Example binary64_wide_radius :
  Binary64.aa_rounded_rect Binary64.sq 8 8 10 9 = 0%float
  /\ (Binary64.dist Binary64.sq 8 8 9 9 <=? 9 - 0.7)%float = true.
Proof. vm_compute. split; reflexivity. Qed.

(** With size 16 and the radius just below 8, [size - r] is computed as
    8.0, the centre: no right-hand corner passes the loop's test and the
    pixel (15, 0), beyond the corner centre on both axes, gets full
    coverage. *)
Example binary64_radius_near_centre :
  let r := 7.999999999999999%float in
  (r <? Binary64.of_int 16 / 2)%float = true
  /\ (Binary64.of_int 16 - r =? Binary64.of_int 16 / 2)%float = true
  /\ Rounded.outer 16 r Hi 15 = true /\ Rounded.outer 16 r Lo 0 = true
  /\ forall pow2, Binary64.aa_rounded_rect pow2 15 0 16 r = 1%float.
Proof. repeat split; try intros pow2; vm_compute; reflexivity. Qed.

(** The circle coverage at a computed distance equal to the computed
    r - 0.7 is below 1: pixel (8, 8), centre (0, 0). *)
Example binary64_circle_threshold :
  let r := 12.01370849898476%float in
  (Binary64.dist Binary64.sq 8 8 0 0 =? r - 0.7)%float = true
  /\ (Binary64.aa_circle Binary64.sq 8 8 0 0 r <? 1)%float = true.
Proof. vm_compute. split; reflexivity. Qed.

(** The favicon canvas: 1024 pixels, all channels within a byte. *)
Example binary64_favicon_canvas :
  length (Binary64.draw_icon Binary64.sq 32) = 1024%nat
  /\ forallb (fun p => (0 <=? red p) && (red p <=? 255)
                       && ((0 <=? green p) && (green p <=? 255))
                       && ((0 <=? blue p) && (blue p <=? 255))
                       && ((0 <=? alpha p) && (alpha p <=? 255)))
             (Binary64.draw_icon Binary64.sq 32) = true.
Proof. vm_compute. split; reflexivity. Qed.

(** * Further properties of the code *)

Local Open Scope R_scope.

(** ** The canvas *)

(** X1: the canvas of [draw_icon] holds max(0, size)^2 pixels in row-major
    order: the pixel of column x, row y sits at index y * size + x, and
    there is nothing at index size * size or beyond. *)
Theorem draw_icon_canvas (size : Z) :
  len (draw_icon size) = (Z.max 0 size * Z.max 0 size)%Z
  /\ (forall x y, (0 <= x < size)%Z -> (0 <= y < size)%Z ->
        nth_error (draw_icon size) (Z.to_nat (y * size + x))
        = Some (draw_pixel size (IZR size / 2) (IZR size * 0.18)
                           (IZR size * 0.35) x y))
  /\ (forall i, (Z.max 0 size * Z.max 0 size <= Z.of_nat i)%Z ->
        nth_error (draw_icon size) i = None).
Proof.
  assert (L : len (draw_icon size) = (Z.max 0 size * Z.max 0 size)%Z).
  { unfold len. rewrite draw_icon_length. lia. }
  split; [exact L |]. split.
  - intros x y Hx Hy. now apply draw_icon_nth.
  - intros i Hi. apply nth_error_None. unfold len in L. lia.
Qed.

Lemma draw_icon_canvas_witness :
  len (draw_icon 32) = 1024%Z /\ draw_icon 0 = [] /\ draw_icon (-3) = [].
Proof.
  split; [exact (proj1 (draw_icon_canvas 32)) |].
  split; apply length_zero_iff_nil, Nat2Z.inj.
  - exact (proj1 (draw_icon_canvas 0)).
  - exact (proj1 (draw_icon_canvas (-3))).
Defined.

(** ** Opaque and transparent pixels *)

Lemma int_IZR (z : Z) : (0 <= z)%Z -> Py.int (IZR z) = z.
Proof.
  intros H. rewrite int_nonneg by (apply IZR_le in H; exact H). apply ZfloorZ.
Qed.

(** Away from the four corner squares the mask coverage is 1. *)
Lemma mask_full_outside_corners (size x y : Z) :
  (0 < size)%Z ->
  (IZR size * 0.18 <= IZR x < IZR size - IZR size * 0.18
   \/ IZR size * 0.18 <= IZR y < IZR size - IZR size * 0.18) ->
  aa_rounded_rect x y size (IZR size * 0.18) = 1.
Proof.
  intros Hs H. apply IZR_lt in Hs.
  apply aa_rounded_rect_inner; [lra |].
  intros sx sy [Hx Hy]. destruct H as [H | H].
  - destruct sx; cbn in Hx; lra.
  - destruct sy; cbn in Hy; lra.
Qed.

(** X2: every canvas pixel outside the four corner squares of side
    0.18 * size (its column or its row lies between the two corner
    centres) is fully opaque. *)
Theorem alpha_opaque_outside_corners (size x y : Z) :
  (0 <= x < size)%Z -> (0 <= y < size)%Z ->
  (IZR size * 0.18 <= IZR x < IZR size - IZR size * 0.18
   \/ IZR size * 0.18 <= IZR y < IZR size - IZR size * 0.18) ->
  exists p, pixel_at size x y = Some p /\ alpha p = 255%Z.
Proof.
  intros Hx Hy H.
  assert (E : aa_rounded_rect x y size (IZR size * 0.18) = 1)
    by (apply mask_full_outside_corners; [lia | exact H]).
  destruct (pixel_at_alpha size x y Hx Hy) as (p & Hp & Ha); [rewrite E; lra |].
  exists p. split; [exact Hp |].
  rewrite Ha, E. replace (1 * 255) with (IZR 255) by lra. apply int_IZR. lia.
Qed.

Lemma alpha_opaque_outside_corners_witness :
  exists p, pixel_at 32 0 16 = Some p /\ alpha p = 255%Z.
Proof.
  apply (alpha_opaque_outside_corners 32 0 16); [lia | lia |].
  right. lra.
Defined.

(** Coverage 0 makes the pixel transparent. *)
Lemma pixel_at_transparent (size x y : Z) :
  (0 <= x < size)%Z -> (0 <= y < size)%Z ->
  aa_rounded_rect x y size (IZR size * 0.18) = 0 ->
  pixel_at size x y = Some (0, 0, 0, 0)%Z.
Proof.
  intros Hx Hy E. unfold pixel_at. rewrite draw_icon_nth by assumption.
  unfold draw_pixel. cbv zeta. rewrite E.
  replace (Py.leb 0 0) with true by (symmetry; apply leb_true; lra).
  reflexivity.
Qed.

Lemma falloff_zero r d : r + 0.7 <= d -> falloff r d = 0.
Proof. intros H. apply falloff_profile. exact H. Qed.

Lemma falloff_one r d : d <= r - 0.7 -> falloff r d = 1.
Proof. intros H. apply falloff_profile. exact H. Qed.

(** X3: from size 29 on, all four corner pixels of the canvas are fully
    transparent.  (The corner centres sit at r and size - r while the last
    column is size - 1, so the far corners are one pixel closer to their
    centre than pixel (0, 0) is to its own.) *)
Theorem corner_pixels_transparent (size : Z) :
  (29 <= size)%Z ->
  pixel_at size 0 0 = Some (0, 0, 0, 0)%Z
  /\ pixel_at size (size - 1) 0 = Some (0, 0, 0, 0)%Z
  /\ pixel_at size 0 (size - 1) = Some (0, 0, 0, 0)%Z
  /\ pixel_at size (size - 1) (size - 1) = Some (0, 0, 0, 0)%Z.
Proof.
  intros Hs. pose proof (IZR_le _ _ Hs) as Hs'.
  set (r := IZR size * 0.18).
  assert (Hr : 5.22 <= r) by (unfold r; lra).
  assert (Hr2 : r < IZR size / 2) by (unfold r; lra).
  assert (HL : outer size r Lo 0) by (cbn; lra).
  assert (HH : outer size r Hi (size - 1)) by (cbn; rewrite minus_IZR; lra).
  assert (G : forall x y sx sy,
             (0 <= x < size)%Z -> (0 <= y < size)%Z ->
             outer size r sx x -> outer size r sy y ->
             r + 0.7 <= dist x y (inset size r sx) (inset size r sy) ->
             pixel_at size x y = Some (0, 0, 0, 0)%Z).
  { intros x y sx sy Hx Hy Ox Oy D. apply pixel_at_transparent; try assumption.
    fold r. rewrite (aa_rounded_rect_corner x y size r sx sy) by assumption.
    now apply falloff_zero. }
  repeat split.
  - apply (G 0%Z 0%Z Lo Lo); try lia; try assumption.
    unfold dist, inset. apply sqrt_ge_sq; [lra | nra].
  - apply (G (size - 1)%Z 0%Z Hi Lo); try lia; try assumption.
    unfold dist, inset. rewrite minus_IZR. apply sqrt_ge_sq; [lra | nra].
  - apply (G 0%Z (size - 1)%Z Lo Hi); try lia; try assumption.
    unfold dist, inset. rewrite minus_IZR. apply sqrt_ge_sq; [lra | nra].
  - apply (G (size - 1)%Z (size - 1)%Z Hi Hi); try lia; try assumption.
    unfold dist, inset. rewrite minus_IZR. apply sqrt_ge_sq; [lra | nra].
Qed.

Lemma corner_pixels_transparent_witness :
  pixel_at 32 31 31 = Some (0, 0, 0, 0)%Z.
Proof.
  assert (H : (29 <= 32)%Z) by lia.
  exact (proj2 (proj2 (proj2 (corner_pixels_transparent 32 H)))).
Defined.

(** ** The glyph *)

(** Decide a comparison between closed expressions. *)
Ltac cmp_eval :=
  repeat match goal with
         | |- context [Py.leb ?a ?b] =>
             first [ rewrite (proj2 (leb_true a b)) by lra
                   | rewrite (proj2 (leb_false a b)) by lra ]
         | |- context [Py.geb ?a ?b] =>
             first [ rewrite (proj2 (geb_true a b)) by lra
                   | rewrite (proj2 (geb_false a b)) by lra ]
         end.

(** The regions behind a positive answer of [is_in_b], as inequalities. *)
Lemma is_in_b_cases (nx ny : R) :
  is_in_b nx ny = true ->
  ((0.32 <= nx <= 0.44 /\ 0.20 <= ny <= 0.80)
   \/ (0.44 <= nx <= 0.58 /\ 0.20 <= ny <= 0.30)
   \/ (0.44 <= nx <= 0.60 /\ 0.46 <= ny <= 0.54)
   \/ (0.44 <= nx <= 0.58 /\ 0.70 <= ny <= 0.80)
   \/ (((nx - 0.55) / 0.14) ^ 2 + ((ny - 0.375) / 0.135) ^ 2 <= 1 /\ nx >= 0.44)
   \/ (((nx - 0.57) / 0.15) ^ 2 + ((ny - 0.625) / 0.135) ^ 2 <= 1 /\ nx >= 0.44))
  /\ ((nx - 0.49) / 0.065) ^ 2 + ((ny - 0.375) / 0.065) ^ 2 > 1
  /\ ((nx - 0.51) / 0.070) ^ 2 + ((ny - 0.625) / 0.065) ^ 2 > 1.
Proof.
  unfold is_in_b. cbv zeta beta iota.
  rewrite <- !leb_true, <- !geb_true, <- !andb_true_iff, <- !orb_true_iff.
  rewrite !orb_assoc.
  match goal with
  | |- (if negb ?f then _ else if ?h1 then _ else if ?h2 then _ else _) = _ -> _ =>
      destruct f eqn:Ef; [| discriminate];
      destruct h1 eqn:E1; [discriminate |];
      destruct h2 eqn:E2; [discriminate |]
  end.
  intros _. apply leb_false in E1, E2.
  split; [reflexivity |]. split; lra.
Qed.

Lemma ellipse_box a b : a ^ 2 + b ^ 2 <= 1 -> -1 <= a <= 1 /\ -1 <= b <= 1.
Proof. intros H. split; split; nra. Qed.

(** Where [is_in_b] answers true: a box, and a disc around (0.5, 0.5). *)
Lemma is_in_b_bounds (nx ny : R) :
  is_in_b nx ny = true ->
  0.32 <= nx <= 0.72 /\ 0.20 <= ny <= 0.80
  /\ (nx - 0.5) ^ 2 + (ny - 0.5) ^ 2 <= 0.35 ^ 2.
Proof.
  intros H. apply is_in_b_cases in H as (F & _ & _).
  assert (B : 0.32 <= nx <= 0.72 /\ 0.20 <= ny <= 0.80
              /\ (nx <= 0.44 \/ (0.24 <= ny <= 0.76) \/ nx <= 0.60)).
  { destruct F as [F | [F | [F | [F | [[F G] | [F G]]]]]]; try lra.
    - apply ellipse_box in F as [Fa Fb].
      assert (-0.14 <= nx - 0.55 <= 0.14).
      { replace (nx - 0.55) with ((nx - 0.55) / 0.14 * 0.14) by (field; lra). lra. }
      assert (-0.135 <= ny - 0.375 <= 0.135).
      { replace (ny - 0.375) with ((ny - 0.375) / 0.135 * 0.135) by (field; lra). lra. }
      lra.
    - apply ellipse_box in F as [Fa Fb].
      assert (-0.15 <= nx - 0.57 <= 0.15).
      { replace (nx - 0.57) with ((nx - 0.57) / 0.15 * 0.15) by (field; lra). lra. }
      assert (-0.135 <= ny - 0.625 <= 0.135).
      { replace (ny - 0.625) with ((ny - 0.625) / 0.135 * 0.135) by (field; lra). lra. }
      lra. }
  destruct B as (Bx & By & Bc).
  repeat (split; [lra |]).
  destruct Bc as [Bc | [Bc | Bc]]; nra.
Qed.












(** ** Colours *)

Lemma pixel_at_draw_pixel (size x y : Z) :
  (0 <= x < size)%Z -> (0 <= y < size)%Z ->
  pixel_at size x y
  = Some (draw_pixel size (IZR size / 2) (IZR size * 0.18) (IZR size * 0.35) x y).
Proof. intros Hx Hy. unfold pixel_at. now apply draw_icon_nth. Qed.

(** The pixel body once the mask coverage is known to be positive and the
    coin coverage known to be 1. *)
Lemma draw_pixel_in_coin size center corner_r coin_r x y :
  aa_rounded_rect x y size corner_r > 0 ->
  aa_circle x y center center coin_r >= 1 ->
  draw_pixel size center corner_r coin_r x y
  = if is_in_b (0.5 + (IZR x - center) / (coin_r * 2))
               (0.5 + (IZR y - center) / (coin_r * 2))
    then (BG_R, BG_G, BG_B, Py.int (aa_rounded_rect x y size corner_r * 255))
    else (255, 255, 255, Py.int (aa_rounded_rect x y size corner_r * 255))%Z.
Proof.
  intros Hra Hca. unfold draw_pixel. cbv zeta.
  replace (Py.leb (aa_rounded_rect x y size corner_r) 0) with false
    by (symmetry; apply leb_false; lra).
  replace (Py.geb (aa_circle x y center center coin_r) 1) with true
    by (symmetry; apply geb_true; lra).
  reflexivity.
Qed.

(** X5: for every even size the centre pixel (size/2, size/2) is the brand
    colour at full opacity: it falls on the middle bar of the B. *)
Theorem centre_pixel (k : Z) :
  (0 < k)%Z ->
  pixel_at (2 * k) k k = Some (0x10, 0xB9, 0x81, 255)%Z.
Proof.
  intros Hk. assert (Hk' : 1 <= IZR k) by (apply IZR_le; lia).
  rewrite pixel_at_draw_pixel by lia.
  assert (S2 : IZR (2 * k) = 2 * IZR k) by (rewrite mult_IZR; reflexivity).
  assert (Era : aa_rounded_rect k k (2 * k) (IZR (2 * k) * 0.18) = 1).
  { apply mask_full_outside_corners; [lia |]. left. rewrite S2. lra. }
  assert (Eca : aa_circle k k (IZR (2 * k) / 2) (IZR (2 * k) / 2) (IZR (2 * k) * 0.35) = 1).
  { rewrite aa_circle_falloff. apply falloff_one.
    unfold dist. rewrite !S2.
    replace ((IZR k - 2 * IZR k / 2) ^ 2 + (IZR k - 2 * IZR k / 2) ^ 2) with 0 by field.
    rewrite sqrt_0. lra. }
  rewrite draw_pixel_in_coin by (rewrite ?Era, ?Eca; lra).
  rewrite Era.
  replace (IZR k - IZR (2 * k) / 2) with 0 by (rewrite S2; field).
  unfold Rdiv at 1 2. rewrite !Rmult_0_l, Rplus_0_r.
  replace (is_in_b 0.5 0.5) with true
    by (symmetry; unfold is_in_b; cbv zeta beta iota; cmp_eval; reflexivity).
  replace (1 * 255) with (IZR 255) by lra. rewrite int_IZR by lia. reflexivity.
Qed.

Lemma centre_pixel_witness :
  pixel_at 32 16 16 = Some (16, 185, 129, 255)%Z.
Proof. apply (centre_pixel 16). lia. Defined.



(** X7: from size 7 on the glyph lies wholly inside the fully covered part
    of the coin: wherever [is_in_b] accepts the normalised coordinates of
    a pixel inside the mask, the coin coverage is 1 and the pixel has the
    brand colour. *)
Theorem glyph_pixels_brand (size x y : Z) :
  (7 <= size)%Z -> (0 <= x < size)%Z -> (0 <= y < size)%Z ->
  let center := IZR size / 2 in
  let coin_r := IZR size * 0.35 in
  let nx := 0.5 + (IZR x - center) / (coin_r * 2) in
  let ny := 0.5 + (IZR y - center) / (coin_r * 2) in
  aa_rounded_rect x y size (IZR size * 0.18) > 0 ->
  is_in_b nx ny = true ->
  aa_circle x y center center coin_r = 1
  /\ exists p, pixel_at size x y = Some p /\ rgb p = (0x10, 0xB9, 0x81)%Z.
Proof.
  intros Hs Hx Hy center coin_r nx ny Hra Hb.
  pose proof (IZR_le _ _ Hs) as Hs'.
  assert (Hr : 2.45 <= coin_r) by (unfold coin_r; lra).
  assert (E : (nx - 0.5) ^ 2 + (ny - 0.5) ^ 2 <= 0.35 ^ 2)
    by apply (is_in_b_bounds nx ny Hb).
  assert (D : dist x y center center <= coin_r - 0.7).
  { unfold dist. apply sqrt_le_sq; [lra |].
    set (dx := IZR x - center) in *. set (dy := IZR y - center) in *.
    assert (Ex : nx - 0.5 = dx / (coin_r * 2)) by (unfold nx; lra).
    assert (Ey : ny - 0.5 = dy / (coin_r * 2)) by (unfold ny; lra).
    assert (Qx : dx = (nx - 0.5) * (coin_r * 2)) by (rewrite Ex; field; lra).
    assert (Qy : dy = (ny - 0.5) * (coin_r * 2)) by (rewrite Ey; field; lra).
    rewrite Qx, Qy.
    replace (((nx - 0.5) * (coin_r * 2)) ^ 2 + ((ny - 0.5) * (coin_r * 2)) ^ 2)
      with (((nx - 0.5) ^ 2 + (ny - 0.5) ^ 2) * (4 * coin_r ^ 2)) by ring.
    apply Rle_trans with (0.35 ^ 2 * (4 * coin_r ^ 2)); [| nra].
    apply Rmult_le_compat_r; [nra | exact E]. }
  assert (Eca : aa_circle x y center center coin_r = 1)
    by (rewrite aa_circle_falloff; now apply falloff_one).
  split; [exact Eca |].
  rewrite pixel_at_draw_pixel by assumption.
  eexists. split; [reflexivity |].
  fold center coin_r. rewrite draw_pixel_in_coin by (rewrite ?Eca; lra).
  fold nx ny. rewrite Hb. reflexivity.
Qed.

Lemma glyph_pixels_brand_witness :
  aa_circle 16 16 (IZR 32 / 2) (IZR 32 / 2) (IZR 32 * 0.35) = 1.
Proof.
  assert (H : (0 <= 16 < 32)%Z) by lia.
  assert (Era : aa_rounded_rect 16 16 32 (IZR 32 * 0.18) = 1).
  { apply mask_full_outside_corners; [lia |]. left. lra. }
  apply (glyph_pixels_brand 32 16 16); [lia | exact H | exact H | rewrite Era; lra |].
  replace (0.5 + (IZR 16 - IZR 32 / 2) / (IZR 32 * 0.35 * 2)) with 0.5 by lra.
  unfold is_in_b. cbv zeta beta iota. cmp_eval. reflexivity.
Defined.

(** X8: every canvas pixel is either the transparent pixel (0, 0, 0, 0)
    or has its red, green and blue channels between the brand colour and
    white, in the brand colour's order red <= blue <= green, with alpha in
    [0, 255]: no other hue is ever produced. *)
Theorem canvas_palette (size : Z) (p : pixel) :
  In p (draw_icon size) ->
  p = (0, 0, 0, 0)%Z
  \/ ((0x10 <= red p <= 255)%Z /\ (0xB9 <= green p <= 255)%Z
      /\ (0x81 <= blue p <= 255)%Z
      /\ (red p <= blue p <= green p)%Z /\ (0 <= alpha p <= 255)%Z).
Proof.
  intros H. apply draw_icon_In in H as (x & y & _ & _ & ->).
  unfold draw_pixel. cbv zeta.
  pose proof (aa_rounded_rect_range x y size (IZR size * 0.18)) as Hra.
  pose proof (aa_circle_range x y (IZR size / 2) (IZR size / 2) (IZR size * 0.35)) as Hca.
  set (ra := aa_rounded_rect x y size (IZR size * 0.18)) in *.
  set (ca := aa_circle x y (IZR size / 2) (IZR size / 2) (IZR size * 0.35)) in *.
  assert (A : (0 <= Py.int (ra * 255) <= 255)%Z) by (apply int_bounds; lra).
  unfold BG_R, BG_G, BG_B.
  cmp_case (Py.leb ra 0); [now left | right].
  cmp_case (Py.geb ca 1); [| cmp_case (Py.gtb ca 0)].
  - destruct (is_in_b _ _); cbn [red green blue alpha]; lia.
  - cbn [red green blue alpha].
    assert (Br : (16 <= Py.int (16 * (1 - ca) + 255 * ca) <= 255)%Z)
      by (apply int_bounds; lra).
    assert (Bg : (185 <= Py.int (185 * (1 - ca) + 255 * ca) <= 255)%Z)
      by (apply int_bounds; lra).
    assert (Bb : (129 <= Py.int (129 * (1 - ca) + 255 * ca) <= 255)%Z)
      by (apply int_bounds; lra).
    assert (O1 : (Py.int (16 * (1 - ca) + 255 * ca)
                  <= Py.int (129 * (1 - ca) + 255 * ca))%Z)
      by (rewrite !int_nonneg by lra; apply Zfloor_le; lra).
    assert (O2 : (Py.int (129 * (1 - ca) + 255 * ca)
                  <= Py.int (185 * (1 - ca) + 255 * ca))%Z)
      by (rewrite !int_nonneg by lra; apply Zfloor_le; lra).
    lia.
  - cbn [red green blue alpha]. lia.
Qed.

Lemma canvas_palette_witness :
  exists p, In p (draw_icon 32)
            /\ (p = (0, 0, 0, 0)%Z \/ (0x10 <= red p <= 255)%Z).
Proof.
  assert (H : nth_error (draw_icon 32) (Z.to_nat (0 * 32 + 0))
              = Some (draw_pixel 32 (IZR 32 / 2) (IZR 32 * 0.18) (IZR 32 * 0.35) 0 0))
    by (apply draw_icon_nth; lia).
  apply nth_error_In in H.
  eexists. split; [exact H |].
  destruct (canvas_palette 32 _ H) as [E | (E & _)]; [left | right]; exact E.
Defined.

(** ** Symmetry and degenerate radii *)

Lemma dist_swap x y cx cy : dist y x cy cx = dist x y cx cy.
Proof. unfold dist. now rewrite Rplus_comm. Qed.

Lemma outer_dec size r s v : {outer size r s v} + {~ outer size r s v}.
Proof.
  destruct s; cbn.
  - apply Rlt_dec.
  - apply Rge_dec.
Qed.

Lemma aa_rounded_rect_swap (x y size : Z) (r : R) :
  r < IZR size / 2 ->
  aa_rounded_rect y x size r = aa_rounded_rect x y size r.
Proof.
  intros Hr.
  assert (C : (exists sx sy, outer size r sx x /\ outer size r sy y)
              \/ (forall sx sy, ~ (outer size r sx x /\ outer size r sy y))).
  { destruct (outer_dec size r Lo x) as [Lx | Lx], (outer_dec size r Hi x) as [Hx | Hx],
      (outer_dec size r Lo y) as [Ly | Ly], (outer_dec size r Hi y) as [Hy | Hy];
      try (left; eexists; eexists; split; eassumption);
      right; intros [|] [|] [? ?]; contradiction. }
  destruct C as [(sx & sy & Ox & Oy) | N].
  - rewrite (aa_rounded_rect_corner x y size r sx sy),
      (aa_rounded_rect_corner y x size r sy sx) by assumption.
    now rewrite dist_swap.
  - rewrite (aa_rounded_rect_inner x y size r) by assumption.
    apply aa_rounded_rect_inner; [exact Hr |].
    intros sx sy [Oy Ox]. exact (N sy sx (conj Ox Oy)).
Qed.

(** X9: the alpha mask of the icon is symmetric about the main diagonal:
    pixels (x, y) and (y, x) carry the same alpha and see the same coin
    coverage (their colours may differ: the glyph is not symmetric). *)
Theorem alpha_transpose (size x y : Z) :
  (0 <= x < size)%Z -> (0 <= y < size)%Z ->
  exists p q, pixel_at size x y = Some p /\ pixel_at size y x = Some q
              /\ alpha p = alpha q
              /\ aa_circle x y (IZR size / 2) (IZR size / 2) (IZR size * 0.35)
                 = aa_circle y x (IZR size / 2) (IZR size / 2) (IZR size * 0.35).
Proof.
  intros Hx Hy.
  assert (Hs : 0 < IZR size) by (apply IZR_lt; lia).
  assert (E : aa_rounded_rect y x size (IZR size * 0.18)
              = aa_rounded_rect x y size (IZR size * 0.18))
    by (apply aa_rounded_rect_swap; lra).
  rewrite !pixel_at_draw_pixel by assumption.
  eexists. eexists. split; [reflexivity |]. split; [reflexivity |].
  split; [| now rewrite !aa_circle_falloff, dist_swap].
  unfold draw_pixel. cbv zeta. rewrite E.
  repeat match goal with |- context [if ?c then _ else _] => destruct c end;
    reflexivity.
Qed.

Lemma alpha_transpose_witness :
  exists p q, pixel_at 32 1 2 = Some p /\ pixel_at 32 2 1 = Some q
              /\ alpha p = alpha q.
Proof.
  destruct (alpha_transpose 32 1 2) as (p & q & Hp & Hq & Ha & _); try lia.
  exists p, q. repeat split; assumption.
Defined.

(** X10: degenerate radii.  A circle of radius at most -0.7 covers no
    pixel at all.  A rounded rectangle whose corner radius is exactly
    size / 2 is not rounded: no corner test fires and every pixel gets
    coverage 1; so does every canvas pixel when the radius is at most 0. *)
Theorem degenerate_radii :
  (forall x y cx cy r, r <= -0.7 -> aa_circle x y cx cy r = 0)
  /\ (forall x y size, aa_rounded_rect x y size (IZR size / 2) = 1)
  /\ (forall x y size r,
        r <= 0 -> (0 <= x < size)%Z -> (0 <= y < size)%Z ->
        aa_rounded_rect x y size r = 1).
Proof.
  split; [| split].
  - intros x y cx cy r Hr. rewrite aa_circle_falloff. apply falloff_zero.
    pose proof (dist_nonneg x y cx cy). lra.
  - intros x y size. unfold aa_rounded_rect, corners. cbv zeta.
    assert (Q : forall v c,
               in_c v size (IZR size / 2) (IZR size / 2) c = true ->
               c <> IZR size / 2 /\ c <> IZR size - IZR size / 2).
    { intros v c H. unfold in_c in H.
      apply orb_true_iff in H as [H | H]; apply andb_true_iff in H as [_ H].
      - apply ltb_true in H. lra.
      - apply gtb_true in H. lra. }
    assert (N : forall v c, c = IZR size / 2 \/ c = IZR size - IZR size / 2 ->
                            in_c v size (IZR size / 2) (IZR size / 2) c = false).
    { intros v c Hc. apply not_true_is_false. intros H. apply Q in H. lra. }
    rewrite !corner_loop_skip; [reflexivity | | | |];
      rewrite (N x) by (first [left; reflexivity | right; reflexivity]);
      reflexivity.
  - intros x y size r Hr Hx Hy.
    apply aa_rounded_rect_inner.
    + assert (0 < IZR size) by (apply IZR_lt; lia). lra.
    + intros sx sy [Ox _].
      destruct Hx as [Hx1 Hx2]. apply IZR_le in Hx1. apply IZR_lt in Hx2.
      destruct sx; cbn in Ox; lra.
Qed.

Lemma degenerate_radii_witness :
  aa_circle 0 0 0 0 (-1) = 0 /\ aa_rounded_rect 0 0 32 0 = 1.
Proof.
  split.
  - apply (proj1 degenerate_radii). lra.
  - apply (proj2 (proj2 degenerate_radii)); [lra | lia | lia].
Defined.

(** ** The scanline buffer *)

Local Open Scope Z_scope.

Lemma pack_raise big fs vs e :
  struct.pack big fs vs = Raise e -> e = StructError.
Proof.
  revert vs. induction fs as [| f fs IH]; intros [| v vs] H; cbn [struct.pack] in H;
    try discriminate; try (injection H as <-; reflexivity).
  destruct big.
  - unfold struct.pack_be in H. destruct (struct.fits (struct.width f) v); cbn [bind] in H.
    + destruct (struct.pack true fs vs) eqn:E; cbn [bind] in H; [discriminate |].
      injection H as <-. now apply (IH vs).
    + now injection H as <-.
  - unfold struct.pack_le in H. destruct (struct.fits (struct.width f) v); cbn [bind] in H.
    + destruct (struct.pack false fs vs) eqn:E; cbn [bind] in H; [discriminate |].
      injection H as <-. now apply (IH vs).
    + now injection H as <-.
Qed.

Lemma pack_pixel_fits r g b a bs :
  struct.pack false [struct.B; struct.B; struct.B; struct.B] [r; g; b; a] = Ok bs ->
  valid_pixel (r, g, b, a).
Proof.
  cbn [struct.pack struct.width]. unfold struct.pack_le, struct.fits.
  change (2 ^ (8 * Z.of_nat 1)) with 256.
  unfold valid_pixel, channel. cbn [red green blue alpha].
  destruct ((0 <=? r) && (r <? 256)) eqn:Er; cbn [bind]; [| discriminate].
  destruct ((0 <=? g) && (g <? 256)) eqn:Eg; cbn [bind]; [| discriminate].
  destruct ((0 <=? b) && (b <? 256)) eqn:Eb; cbn [bind]; [| discriminate].
  destruct ((0 <=? a) && (a <? 256)) eqn:Ea; cbn [bind]; [| discriminate].
  intros _. lia.
Qed.

Lemma pack_pixel_bytes p :
  valid_pixel p ->
  struct.pack false [struct.B; struct.B; struct.B; struct.B]
              [red p; green p; blue p; alpha p]
  = Ok (Scanline.pixel_bytes p).
Proof. destruct p as [[[r g] b] a]. apply pack_pixel_ok. Qed.

Lemma nth_error_at_index pixels i p :
  nth_error pixels i = Some p -> at_index pixels i = p.
Proof. intros H. unfold at_index. now apply nth_error_nth. Qed.

(** What the inner loop appends when it goes through. *)
Lemma row_loop_Ok width pixels y xs raw raw' :
  row_loop width pixels y xs raw = Ok raw' ->
  (forall x, In x xs ->
             exists p, nth_error pixels (Z.to_nat (y * width + x)) = Some p
                       /\ valid_pixel p)
  /\ raw' = raw ++ flat_map (fun x => Scanline.pixel_bytes
                                         (at_index pixels (Z.to_nat (y * width + x)))) xs.
Proof.
  revert raw. induction xs as [| x xs IH]; intros raw H; cbn [row_loop] in H.
  - injection H as <-. split; [intros x [] | cbn; now rewrite app_nil_r].
  - destruct (nth_error pixels (Z.to_nat (y * width + x))) as [[[[r g] b] a] |] eqn:E;
      [| discriminate].
    destruct (struct.pack false _ _) as [px |] eqn:P; cbn [bind] in H; [| discriminate].
    pose proof (pack_pixel_fits _ _ _ _ _ P) as V.
    rewrite (pack_pixel_ok _ _ _ _ V) in P. injection P as <-.
    apply IH in H as [Hall ->]. split.
    + intros x' [<- | Hx']; [eexists; split; [exact E | exact V] | now apply Hall].
    + cbn [flat_map]. rewrite (nth_error_at_index _ _ _ E), <- app_assoc. reflexivity.
Qed.

(** Why the inner loop stops when it does not go through. *)
Lemma row_loop_Raise width pixels y xs raw e :
  row_loop width pixels y xs raw = Raise e ->
  (e = IndexError
   /\ exists x, In x xs /\ nth_error pixels (Z.to_nat (y * width + x)) = None)
  \/ (e = StructError
      /\ exists x p, In x xs
                     /\ nth_error pixels (Z.to_nat (y * width + x)) = Some p
                     /\ ~ valid_pixel p).
Proof.
  revert raw. induction xs as [| x xs IH]; intros raw H; cbn [row_loop] in H;
    [discriminate |].
  destruct (nth_error pixels (Z.to_nat (y * width + x))) as [[[[r g] b] a] |] eqn:E.
  - destruct (struct.pack false _ _) as [px | e'] eqn:P; cbn [bind] in H.
    + apply IH in H as [(-> & x' & Hx' & N) | (-> & x' & p & Hx' & N & V)].
      * left. split; [reflexivity |]. exists x'. split; [now right | exact N].
      * right. split; [reflexivity |]. exists x', p. split; [now right | now split].
    + injection H as <-. right. split; [exact (pack_raise _ _ _ _ P) |].
      exists x, (r, g, b, a). split; [now left |]. split; [exact E |].
      intros V. rewrite (pack_pixel_ok _ _ _ _ V) in P. discriminate.
  - injection H as <-. left. split; [reflexivity |]. exists x. split; [now left | exact E].
Qed.

Lemma rows_loop_Ok width pixels ys raw raw' :
  rows_loop width pixels ys raw = Ok raw' ->
  (forall x y, In x (Py.range width) -> In y ys ->
               exists p, nth_error pixels (Z.to_nat (y * width + x)) = Some p
                         /\ valid_pixel p)
  /\ raw' = raw ++ flat_map (row_bytes width pixels) ys.
Proof.
  revert raw. induction ys as [| y ys IH]; intros raw H; cbn [rows_loop] in H.
  - injection H as <-. split; [intros x y _ [] | cbn; now rewrite app_nil_r].
  - destruct (row_loop width pixels y (Py.range width) (raw ++ [byte.of_Z 0]))
      as [r1 |] eqn:E; cbn [bind] in H; [| discriminate].
    apply row_loop_Ok in E as [Hrow ->]. apply IH in H as [Hall ->]. split.
    + intros x y' Hx [<- | Hy']; [now apply Hrow | now apply Hall].
    + cbn [flat_map]. unfold row_bytes at 2. rewrite <- !app_assoc. reflexivity.
Qed.

Lemma rows_loop_Raise width pixels ys raw e :
  rows_loop width pixels ys raw = Raise e ->
  (e = IndexError
   /\ exists x y, In x (Py.range width) /\ In y ys
                  /\ nth_error pixels (Z.to_nat (y * width + x)) = None)
  \/ (e = StructError
      /\ exists x y p, In x (Py.range width) /\ In y ys
                       /\ nth_error pixels (Z.to_nat (y * width + x)) = Some p
                       /\ ~ valid_pixel p).
Proof.
  revert raw. induction ys as [| y ys IH]; intros raw H; cbn [rows_loop] in H;
    [discriminate |].
  destruct (row_loop width pixels y (Py.range width) (raw ++ [byte.of_Z 0]))
    as [r1 | e'] eqn:E; cbn [bind] in H.
  - apply IH in H as [(-> & x & y' & Hx & Hy & N) | (-> & x & y' & p & Hx & Hy & N & V)].
    + left. split; [reflexivity |]. exists x, y'. repeat split; [exact Hx | now right | exact N].
    + right. split; [reflexivity |]. exists x, y', p.
      repeat split; [exact Hx | now right | exact N | exact V].
  - injection H as <-.
    apply row_loop_Raise in E as [(-> & x & Hx & N) | (-> & x & p & Hx & N & V)].
    + left. split; [reflexivity |]. exists x, y. repeat split; [exact Hx | now left | exact N].
    + right. split; [reflexivity |]. exists x, y, p.
      repeat split; [exact Hx | now left | exact N | exact V].
Qed.

Lemma flat_map_map {A B C : Type} (f : B -> list C) (g : A -> B) l :
  flat_map f (map g l) = flat_map (fun a => f (g a)) l.
Proof. induction l as [| a l IH]; cbn; [reflexivity | now rewrite IH]. Qed.

Lemma length_flat_map_const {A B : Type} (f : A -> list B) k l :
  (forall a, In a l -> length (f a) = k) ->
  length (flat_map f l) = (length l * k)%nat.
Proof.
  induction l as [| a l IH]; intros H; cbn [flat_map length]; [reflexivity |].
  rewrite length_app, (H a) by now left.
  rewrite IH by (intros b Hb; apply H; now right). lia.
Qed.

Lemma firstn_plus {A : Type} (n m : nat) (l : list A) :
  firstn (n + m) l = firstn n l ++ firstn m (skipn n l).
Proof.
  revert l. induction n as [| n IH]; intros l; [reflexivity |].
  destruct l as [| a l]; cbn [Nat.add firstn skipn app].
  - now rewrite firstn_nil.
  - now rewrite IH.
Qed.

Lemma nth_skipn_plus {A : Type} (d : A) k : forall l i,
  nth (k + i) l d = nth i (skipn k l) d.
Proof.
  induction k as [| k IH]; intros l i; [reflexivity |].
  destruct l as [| a l]; cbn [Nat.add skipn nth]; [now destruct i | apply IH].
Qed.

Lemma map_nth_seq {A : Type} (d : A) : forall l w,
  (w <= length l)%nat -> map (fun i => nth i l d) (seq 0 w) = firstn w l.
Proof.
  induction l as [| a l IH]; intros w Hw; cbn [length] in Hw.
  - now replace w with 0%nat by lia.
  - destruct w as [| w]; [reflexivity |].
    cbn [seq map firstn nth]. f_equal.
    rewrite <- seq_shift, map_map. cbn [nth]. apply IH. lia.
Qed.

(** A row-major grid of reads is a prefix of the list. *)
Lemma grid_firstn {A : Type} (d : A) (l : list A) (w : nat) : forall h a,
  ((a + h) * w <= length l)%nat ->
  flat_map (fun y => map (fun x => nth (y * w + x) l d) (seq 0 w)) (seq a h)
  = firstn (h * w) (skipn (a * w) l).
Proof.
  induction h as [| h IH]; intros a H; [reflexivity |].
  cbn [seq flat_map].
  rewrite IH by lia.
  replace (S a * w)%nat with (w + a * w)%nat by lia.
  rewrite <- skipn_skipn.
  replace (S h * w)%nat with (w + h * w)%nat by lia.
  rewrite firstn_plus. f_equal.
  erewrite map_ext by (intros; apply nth_skipn_plus).
  apply map_nth_seq. rewrite length_skipn. nia.
Qed.

Lemma byte_roundtrip c : channel c -> byte.unsigned (byte.of_Z c) = c.
Proof.
  unfold channel. intros H. rewrite byte.unsigned_of_Z. unfold byte.wrap.
  apply Z.mod_small. change (2 ^ 8) with 256. lia.
Qed.

Lemma read_pixels_bytes ps rest :
  Forall valid_pixel ps ->
  Scanline.read_pixels (length ps) (flat_map Scanline.pixel_bytes ps ++ rest)
  = Some (ps, rest).
Proof.
  induction 1 as [| [[[r g] b] a] ps (Hr & Hg & Hb & Ha) _ IH]; [reflexivity |].
  cbn [length flat_map Scanline.pixel_bytes red green blue alpha app
       Scanline.read_pixels] in *.
  rewrite IH, !byte_roundtrip by assumption. reflexivity.
Qed.

Lemma read_rows_bytes w rows :
  (forall row, In row rows -> length row = w /\ Forall valid_pixel row) ->
  Scanline.read_rows (length rows) w
    (flat_map (fun row => byte.of_Z 0 :: flat_map Scanline.pixel_bytes row) rows)
  = Some (concat rows).
Proof.
  induction rows as [| row rows IH]; intros H; [reflexivity |].
  destruct (H row (or_introl eq_refl)) as [<- Hv].
  cbn [length flat_map app concat Scanline.read_rows].
  rewrite byte_roundtrip by (unfold channel; lia). cbn [Z.eqb].
  rewrite read_pixels_bytes by exact Hv.
  rewrite IH.
  - reflexivity.
  - intros row' Hr. destruct (H row' (or_intror Hr)) as [E V]. split; assumption.
Qed.

Lemma scanlines_Ok width height pixels raw :
  scanlines width height pixels = Ok raw ->
  (forall x y, 0 <= x < width -> 0 <= y < height ->
               exists p, nth_error pixels (Z.to_nat (y * width + x)) = Some p
                         /\ valid_pixel p)
  /\ raw = flat_map (row_bytes width pixels) (Py.range height).
Proof.
  unfold scanlines. intros H. apply rows_loop_Ok in H as [Hall ->]. split.
  - intros x y Hx Hy. apply Hall; now apply In_range.
  - reflexivity.
Qed.

(** The pixels a successful run has read cover the first width * height
    entries of the list. *)
Lemma scanlines_Ok_length width height pixels raw :
  0 <= width -> 0 <= height ->
  scanlines width height pixels = Ok raw ->
  width * height <= len pixels.
Proof.
  intros Hw Hh H. apply scanlines_Ok in H as [Hall _].
  destruct (Z.eq_dec width 0) as [-> | Nw]; [unfold len; lia |].
  destruct (Z.eq_dec height 0) as [-> | Nh]; [unfold len; lia |].
  destruct (Hall (width - 1) (height - 1)) as (p & Hp & _); try lia.
  assert (L : (Z.to_nat ((height - 1) * width + (width - 1)) < length pixels)%nat)
    by (apply nth_error_Some; congruence).
  unfold len. nia.
Qed.

(** X11: the scanline buffer of [make_png] is lossless and has the size
    PNG expects: when the loops go through, the buffer holds
    height * (1 + 4 * width) bytes, and reading it back as [height] rows
    of a filter byte 0 followed by [width] four-byte pixels returns
    exactly the first width * height pixels of the input. *)
Theorem scanlines_roundtrip (width height : Z) (pixels : list pixel) (raw : list byte) :
  0 <= width -> 0 <= height ->
  scanlines width height pixels = Ok raw ->
  len raw = height * (1 + 4 * width)
  /\ Scanline.read_rows (Z.to_nat height) (Z.to_nat width) raw
     = Some (firstn (Z.to_nat (width * height)) pixels).
Proof.
  intros Hw Hh H.
  pose proof (scanlines_Ok_length _ _ _ _ Hw Hh H) as Hlen.
  apply scanlines_Ok in H as [Hall ->].
  set (row := fun y => map (fun x => at_index pixels (Z.to_nat (y * width + x)))
                           (Py.range width)).
  assert (E : flat_map (row_bytes width pixels) (Py.range height)
              = flat_map (fun r => byte.of_Z 0 :: flat_map Scanline.pixel_bytes r)
                         (map row (Py.range height))).
  { rewrite flat_map_map. apply flat_map_ext. intros y.
    unfold row_bytes, row. now rewrite flat_map_map. }
  assert (Lr : length (Py.range width) = Z.to_nat width)
    by (unfold Py.range; now rewrite length_map, length_seq).
  assert (Lh : length (Py.range height) = Z.to_nat height)
    by (unfold Py.range; now rewrite length_map, length_seq).
  split.
  - unfold len.
    rewrite (length_flat_map_const _ (1 + 4 * Z.to_nat width)%nat).
    + rewrite Lh. lia.
    + intros y _. unfold row_bytes. cbn [length].
      rewrite (length_flat_map_const _ 4%nat) by (intros; reflexivity).
      rewrite Lr. lia.
  - rewrite E.
    replace (Z.to_nat height) with (length (map row (Py.range height)))
      by (now rewrite length_map).
    rewrite read_rows_bytes.
    + f_equal. rewrite <- flat_map_concat_map.
      unfold row, Py.range. rewrite flat_map_map.
      assert (Hn : (Z.to_nat height * Z.to_nat width <= length pixels)%nat).
      { apply Nat2Z.inj_le. rewrite Nat2Z.inj_mul, !Z2Nat.id by lia.
        unfold len in Hlen. lia. }
      assert (Hm : Z.to_nat (width * height) = (Z.to_nat height * Z.to_nat width)%nat).
      { rewrite Z.mul_comm. apply Z2Nat.inj_mul; lia. }
      rewrite Hm.
      change (firstn (Z.to_nat height * Z.to_nat width) pixels)
        with (firstn (Z.to_nat height * Z.to_nat width)
                     (skipn (0 * Z.to_nat width) pixels)).
      rewrite <- (grid_firstn (0, 0, 0, 0)%Z) by (cbn [Nat.add]; exact Hn).
      apply flat_map_ext. intros j. rewrite map_map. apply map_ext. intros i.
      unfold at_index. f_equal.
      rewrite Z2Nat.inj_add, Z2Nat.inj_mul, !Nat2Z.id by lia. reflexivity.
    + intros r Hr. apply in_map_iff in Hr as (y & <- & Hy). apply In_range in Hy.
      unfold row. split; [now rewrite length_map |].
      apply Forall_forall. intros p Hp.
      apply in_map_iff in Hp as (x & <- & Hx). apply In_range in Hx.
      destruct (Hall x y Hx Hy) as (q & Hq & Vq).
      now rewrite (nth_error_at_index _ _ _ Hq).
Qed.

Lemma scanlines_roundtrip_witness :
  exists raw,
    scanlines 2 1 [(1, 2, 3, 4); (5, 6, 7, 255)] = Ok raw
    /\ Scanline.read_rows 1 2 raw = Some [(1, 2, 3, 4); (5, 6, 7, 255)].
Proof.
  destruct (scanlines_ok_list 2 1 [(1, 2, 3, 4); (5, 6, 7, 255)]) as [raw Hraw].
  - reflexivity.
  - repeat constructor; cbn; lia.
  - exists raw. split; [exact Hraw |].
    refine (proj2 (scanlines_roundtrip 2 1 _ raw _ _ Hraw)); lia.
Defined.

(** X12: the scanline loops go through exactly when every index
    y * width + x they read holds a pixel whose four channels are in
    [0, 255]. *)
Theorem scanlines_succeeds_iff (width height : Z) (pixels : list pixel) :
  (exists raw, scanlines width height pixels = Ok raw)
  <-> (forall x y, 0 <= x < width -> 0 <= y < height ->
         exists p, nth_error pixels (Z.to_nat (y * width + x)) = Some p
                   /\ valid_pixel p).
Proof.
  split.
  - intros [raw H]. now apply scanlines_Ok in H as [Hall _].
  - apply scanlines_ok.
Qed.

Lemma scanlines_Raise width height pixels e :
  scanlines width height pixels = Raise e ->
  (e = IndexError
   /\ exists x y, 0 <= x < width /\ 0 <= y < height
                  /\ nth_error pixels (Z.to_nat (y * width + x)) = None)
  \/ (e = StructError
      /\ exists x y p, 0 <= x < width /\ 0 <= y < height
                       /\ nth_error pixels (Z.to_nat (y * width + x)) = Some p
                       /\ ~ valid_pixel p).
Proof.
  unfold scanlines. intros H.
  apply rows_loop_Raise in H as [(-> & x & y & Hx & Hy & N) | (-> & x & y & p & Hx & Hy & N & V)];
    apply In_range in Hx, Hy.
  - left. split; [reflexivity |]. exists x, y. repeat split; try lia; exact N.
  - right. split; [reflexivity |]. exists x, y, p. repeat split; try lia; assumption.
Qed.

(** ** Success and failure of [make_png] *)

Lemma pack_ihdr_bad width height :
  ~ (0 <= width < 2 ^ 32 /\ 0 <= height < 2 ^ 32) ->
  struct.pack true
    [struct.I; struct.I; struct.B; struct.B; struct.B; struct.B; struct.B]
    [width; height; 8; 6; 0; 0; 0]
  = Raise StructError.
Proof.
  intros N. cbn [struct.pack struct.width].
  unfold struct.pack_be at 1. unfold struct.fits at 1.
  change (2 ^ (8 * Z.of_nat 4)) with (2 ^ 32).
  destruct ((0 <=? width) && (width <? 2 ^ 32)) eqn:Ew; [| reflexivity].
  cbn [bind]. unfold struct.pack_be at 1. unfold struct.fits at 1.
  change (2 ^ (8 * Z.of_nat 4)) with (2 ^ 32).
  destruct ((0 <=? height) && (height <? 2 ^ 32)) eqn:Eh; [| reflexivity].
  exfalso. apply N. lia.
Qed.

(** [make_png] once its header has been packed: the scanline loops, then
    the length check of the IDAT chunk. *)
Lemma make_png_cases zlib_compress width height pixels :
  0 <= width < 2 ^ 32 -> 0 <= height < 2 ^ 32 ->
  make_png zlib_compress width height pixels
  = match scanlines width height pixels with
    | Raise e => Raise e
    | Ok raw =>
        if len (zlib_compress raw 9) <? 2 ^ 32
        then Ok (sig ++ frame IHDR (ihdr_data width height)
                     ++ frame IDAT (zlib_compress raw 9) ++ frame IEND [])
        else Raise StructError
    end.
Proof.
  intros Hw Hh.
  destruct (scanlines width height pixels) as [raw | e] eqn:E.
  - destruct (Z.ltb_spec (len (zlib_compress raw 9)) (2 ^ 32)) as [Hz | Hz].
    + now apply make_png_ok.
    + unfold make_png. rewrite pack_ihdr_ok by assumption. cbn [bind].
      rewrite E. cbn [bind]. cbv zeta.
      rewrite (chunk_ok IHDR) by (unfold len; rewrite length_ihdr_data; cbn; lia).
      cbn [bind]. now rewrite chunk_too_long by exact Hz.
  - unfold make_png. rewrite pack_ihdr_ok by assumption. cbn [bind].
    now rewrite E.
Qed.

(** X13: [make_png] returns a byte stream exactly when width and height
    fit in four bytes, the scanline loops go through, and the compressed
    scanlines are shorter than 2^32 bytes; a width or height outside
    [0, 2^32) raises [struct.error] whatever the pixels are. *)
Theorem make_png_succeeds_iff (zlib_compress : list byte -> Z -> list byte)
        (width height : Z) (pixels : list pixel) :
  ((exists png, make_png zlib_compress width height pixels = Ok png)
   <-> (0 <= width < 2 ^ 32 /\ 0 <= height < 2 ^ 32
        /\ exists raw, scanlines width height pixels = Ok raw
                       /\ len (zlib_compress raw 9) < 2 ^ 32))
  /\ (~ (0 <= width < 2 ^ 32 /\ 0 <= height < 2 ^ 32) ->
      make_png zlib_compress width height pixels = Raise StructError).
Proof.
  assert (B : ~ (0 <= width < 2 ^ 32 /\ 0 <= height < 2 ^ 32) ->
              make_png zlib_compress width height pixels = Raise StructError).
  { intros N. unfold make_png. now rewrite pack_ihdr_bad by exact N. }
  split; [| exact B]. split.
  - intros [png H].
    assert (R : 0 <= width < 2 ^ 32 /\ 0 <= height < 2 ^ 32).
    { destruct (Z_lt_le_dec width 0), (Z_lt_le_dec width (2 ^ 32)),
        (Z_lt_le_dec height 0), (Z_lt_le_dec height (2 ^ 32));
        try (split; lia); rewrite B in H by lia; discriminate. }
    destruct R as [Hw Hh]. repeat (split; [lia |]).
    rewrite make_png_cases in H by assumption.
    destruct (scanlines width height pixels) as [raw |]; [| discriminate].
    exists raw. split; [reflexivity |].
    destruct (Z.ltb_spec (len (zlib_compress raw 9)) (2 ^ 32)); [assumption | discriminate].
  - intros (Hw & Hh & raw & Hraw & Hz). eexists.
    apply (make_png_ok _ _ _ _ raw); assumption.
Qed.

Lemma make_png_succeeds_iff_witness :
  make_png (fun data _ => data) (-1) 1 [(0, 0, 0, 0)] = Raise StructError.
Proof.
  apply make_png_succeeds_iff. lia.
Defined.

(** X14: with dimensions in range and every pixel of the list within
    8 bits per channel, a list shorter than width * height makes
    [make_png] raise [IndexError] (the compressor is never reached). *)
Theorem make_png_short_pixels (zlib_compress : list byte -> Z -> list byte)
        (width height : Z) (pixels : list pixel) :
  0 <= width < 2 ^ 32 -> 0 <= height < 2 ^ 32 ->
  Forall valid_pixel pixels ->
  len pixels < width * height ->
  make_png zlib_compress width height pixels = Raise IndexError.
Proof.
  intros Hw Hh Hv Hl. rewrite make_png_cases by assumption.
  destruct (scanlines width height pixels) as [raw | e] eqn:E.
  - apply scanlines_Ok_length in E; lia.
  - apply scanlines_Raise in E as [(-> & _) | (_ & x & y & p & _ & _ & Hp & N)];
      [reflexivity |].
    exfalso. apply N. rewrite Forall_forall in Hv. eapply Hv, nth_error_In, Hp.
Qed.

Lemma make_png_short_pixels_witness :
  make_png (fun data _ => data) 2 1 [(0, 0, 0, 0)] = Raise IndexError.
Proof.
  apply make_png_short_pixels; try lia.
  - repeat constructor; cbn; lia.
  - cbn. lia.
Defined.

(** X15: with dimensions in range and at least width * height pixels, a
    channel outside [0, 255] among the first width * height pixels makes
    [make_png] raise [struct.error]. *)
Theorem make_png_bad_channel (zlib_compress : list byte -> Z -> list byte)
        (width height : Z) (pixels : list pixel) (i : nat) (p : pixel) :
  0 <= width < 2 ^ 32 -> 0 <= height < 2 ^ 32 ->
  width * height <= len pixels ->
  Z.of_nat i < width * height ->
  nth_error pixels i = Some p -> ~ valid_pixel p ->
  make_png zlib_compress width height pixels = Raise StructError.
Proof.
  intros Hw Hh Hl Hi Hp N. rewrite make_png_cases by assumption.
  assert (W : 0 < width) by nia.
  destruct (scanlines width height pixels) as [raw | e] eqn:E.
  - exfalso. apply scanlines_Ok in E as [Hall _].
    destruct (Hall (Z.of_nat i mod width) (Z.of_nat i / width)) as (q & Hq & Vq).
    + apply Z.mod_pos_bound. lia.
    + split; [apply Z.div_pos; lia |].
      apply Z.div_lt_upper_bound; [lia | lia].
    + replace (Z.of_nat i / width * width + Z.of_nat i mod width) with (Z.of_nat i) in Hq
        by (rewrite (Z.div_mod (Z.of_nat i) width) at 1; lia).
      rewrite Nat2Z.id in Hq. congruence.
  - apply scanlines_Raise in E as [(_ & x & y & Hx & Hy & Hn) | (-> & _)];
      [| reflexivity].
    exfalso. apply nth_error_None in Hn. unfold len in Hl. nia.
Qed.

Lemma make_png_bad_channel_witness :
  make_png (fun data _ => data) 1 1 [(0, 0, 256, 0)] = Raise StructError.
Proof.
  apply (make_png_bad_channel _ 1 1 _ 0%nat (0, 0, 256, 0));
    [lia | lia | cbn; lia | cbn; lia | reflexivity |].
  intros (_ & _ & H & _). unfold channel in H. cbn in H. lia.
Defined.

Lemma row_loop_ext width pixels pixels' y xs :
  (forall x, In x xs ->
             nth_error pixels (Z.to_nat (y * width + x))
             = nth_error pixels' (Z.to_nat (y * width + x))) ->
  forall raw, row_loop width pixels y xs raw = row_loop width pixels' y xs raw.
Proof.
  induction xs as [| x xs IH]; intros H raw; cbn [row_loop]; [reflexivity |].
  rewrite <- (H x) by now left.
  destruct (nth_error pixels _) as [[[[r g] b] a] |]; [| reflexivity].
  destruct (struct.pack false _ _); cbn [bind]; [| reflexivity].
  apply IH. intros x' Hx'. apply H. now right.
Qed.

Lemma rows_loop_ext width pixels pixels' ys :
  (forall x y, In x (Py.range width) -> In y ys ->
               nth_error pixels (Z.to_nat (y * width + x))
               = nth_error pixels' (Z.to_nat (y * width + x))) ->
  forall raw, rows_loop width pixels ys raw = rows_loop width pixels' ys raw.
Proof.
  induction ys as [| y ys IH]; intros H raw; cbn [rows_loop]; [reflexivity |].
  rewrite (row_loop_ext width pixels pixels' y)
    by (intros x Hx; apply H; [exact Hx | now left]).
  destruct (row_loop width pixels' y _ _); cbn [bind]; [| reflexivity].
  apply IH. intros x y' Hx Hy'. apply H; [exact Hx | now right].
Qed.

Lemma scanlines_prefix width height pixels pixels' :
  firstn (Z.to_nat (width * height)) pixels
  = firstn (Z.to_nat (width * height)) pixels' ->
  scanlines width height pixels = scanlines width height pixels'.
Proof.
  intros H. unfold scanlines. apply rows_loop_ext.
  intros x y Hx Hy. apply In_range in Hx, Hy.
  assert (I : (Z.to_nat (y * width + x) < Z.to_nat (width * height))%nat) by nia.
  assert (F : forall l : list pixel,
             nth_error l (Z.to_nat (y * width + x))
             = nth_error (firstn (Z.to_nat (width * height)) l)
                         (Z.to_nat (y * width + x))).
  { intros l. rewrite nth_error_firstn.
    destruct (Nat.ltb_spec (Z.to_nat (y * width + x)) (Z.to_nat (width * height)));
      [reflexivity | lia]. }
  now rewrite (F pixels), (F pixels'), H.
Qed.

(** X16: [make_png] reads only the first width * height pixels: two pixel
    lists that agree on that prefix give the same result, so pixels
    beyond width * height are silently ignored. *)
Theorem make_png_prefix (zlib_compress : list byte -> Z -> list byte)
        (width height : Z) (pixels pixels' : list pixel) :
  firstn (Z.to_nat (width * height)) pixels
  = firstn (Z.to_nat (width * height)) pixels' ->
  make_png zlib_compress width height pixels
  = make_png zlib_compress width height pixels'.
Proof.
  intros H. unfold make_png. now rewrite (scanlines_prefix _ _ _ _ H).
Qed.

Lemma make_png_prefix_witness :
  make_png (fun data _ => data) 1 1 [(1, 2, 3, 4); (999, 0, 0, 0)]
  = make_png (fun data _ => data) 1 1 [(1, 2, 3, 4)].
Proof. apply make_png_prefix. reflexivity. Defined.

(** ** Shape of the stream *)

Lemma frame_IEND : frame IEND [] = iend_trailer.
Proof. vm_compute. reflexivity. Qed.

Lemma make_png_Ok zlib_compress width height pixels png :
  make_png zlib_compress width height pixels = Ok png ->
  0 <= width < 2 ^ 32 /\ 0 <= height < 2 ^ 32
  /\ exists raw, scanlines width height pixels = Ok raw
                 /\ len (zlib_compress raw 9) < 2 ^ 32
                 /\ png = sig ++ frame IHDR (ihdr_data width height)
                              ++ frame IDAT (zlib_compress raw 9) ++ frame IEND [].
Proof.
  intros H.
  assert (R : 0 <= width < 2 ^ 32 /\ 0 <= height < 2 ^ 32).
  { destruct (Z_lt_le_dec width 0), (Z_lt_le_dec width (2 ^ 32)),
      (Z_lt_le_dec height 0), (Z_lt_le_dec height (2 ^ 32));
      try (split; lia);
      unfold make_png in H; rewrite pack_ihdr_bad in H by lia; discriminate. }
  destruct R as [Hw Hh]. repeat (split; [lia |]).
  rewrite make_png_cases in H by assumption.
  destruct (scanlines width height pixels) as [raw |]; [| discriminate].
  exists raw. split; [reflexivity |].
  destruct (Z.ltb_spec (len (zlib_compress raw 9)) (2 ^ 32)); [| discriminate].
  split; [assumption |]. now injection H as <-.
Qed.

(** X17: every stream [make_png] returns is 57 bytes longer than the
    compressed scanlines (8 of signature, 25 of IHDR, 12 of IDAT framing,
    12 of IEND) and ends with the fixed 12-byte IEND chunk
    00 00 00 00 49 45 4E 44 AE 42 60 82. *)
Theorem make_png_length_trailer (zlib_compress : list byte -> Z -> list byte)
        (width height : Z) (pixels : list pixel) (png : list byte) :
  make_png zlib_compress width height pixels = Ok png ->
  exists raw,
    scanlines width height pixels = Ok raw
    /\ len png = 57 + len (zlib_compress raw 9)
    /\ skipn (length png - 12) png = iend_trailer.
Proof.
  intros H. apply make_png_Ok in H as (_ & _ & raw & Hraw & _ & ->).
  exists raw. split; [exact Hraw |].
  set (z := zlib_compress raw 9).
  assert (L : length (sig ++ frame IHDR (ihdr_data width height)
                          ++ frame IDAT z ++ frame IEND [])
              = (45 + length z + 12)%nat).
  { rewrite !length_app, !length_frame, length_ihdr_data. cbn. lia. }
  split; [unfold len; rewrite L; lia |].
  rewrite L. replace (45 + length z + 12 - 12)%nat with (45 + length z)%nat by lia.
  rewrite !app_assoc. rewrite skipn_app_len.
  - apply frame_IEND.
  - rewrite !length_app, !length_frame, length_ihdr_data. cbn. lia.
Qed.

Lemma make_png_length_trailer_witness :
  exists png, make_png (fun data _ => data) 1 1 [(0, 0, 0, 0)] = Ok png
              /\ len png = 62.
Proof.
  set (raw := bytes_of [0; 0; 0; 0; 0]).
  assert (Hraw : scanlines 1 1 [(0, 0, 0, 0)] = Ok raw) by (vm_compute; reflexivity).
  assert (Hz : len ((fun (data : list byte) (_ : Z) => data) raw 9) < 2 ^ 32)
    by (cbv beta; unfold raw, len; cbn [bytes_of map length]; lia).
  pose proof (make_png_ok (fun data _ => data) 1 1 [(0, 0, 0, 0)] raw
                          ltac:(lia) ltac:(lia) Hraw Hz) as H.
  eexists. split; [exact H |].
  destruct (make_png_length_trailer _ _ _ _ _ H) as (raw' & Hraw' & L & _).
  rewrite L. assert (E : raw' = raw) by congruence. rewrite E. reflexivity.
Defined.

(** X18: the IHDR fields read back from the stream at their fixed offsets
    are the width and height given to [make_png], bit depth 8, colour
    type 6, and compression, filter and interlace 0. *)
Theorem make_png_header (zlib_compress : list byte -> Z -> list byte)
        (width height : Z) (pixels : list pixel) (png : list byte) :
  make_png zlib_compress width height pixels = Ok png ->
  read_header png = Some (width, height, (8, 6, 0, 0, 0)).
Proof.
  intros H. apply make_png_Ok in H as (Hw & Hh & raw & _ & _ & ->).
  set (tail := frame IDAT (zlib_compress raw 9) ++ frame IEND []).
  set (W := rev (le_split 4 width)). set (Hb := rev (le_split 4 height)).
  assert (LW : length W = 4%nat) by apply length_be.
  assert (LH : length Hb = 4%nat) by apply length_be.
  set (crc := rev (le_split 4 (zlib.crc32 (IHDR ++ ihdr_data width height)))).
  assert (E : sig ++ frame IHDR (ihdr_data width height) ++ tail
              = (sig ++ rev (le_split 4 (len (ihdr_data width height))) ++ IHDR)
                ++ W ++ Hb ++ bytes_of [8; 6; 0; 0; 0] ++ crc ++ tail).
  { unfold frame, ihdr_data. fold W Hb crc. now rewrite <- !app_assoc. }
  rewrite E. clear E.
  set (pre := sig ++ rev (le_split 4 (len (ihdr_data width height))) ++ IHDR).
  assert (Lp : length pre = 16%nat)
    by (unfold pre; rewrite !length_app, length_be; reflexivity).
  unfold read_header.
  destruct (Nat.ltb_spec (length (pre ++ W ++ Hb ++ bytes_of [8; 6; 0; 0; 0] ++ crc ++ tail)) 29)
    as [Hlt | _].
  { rewrite !length_app, Lp, LW, LH in Hlt. cbn in Hlt. lia. }
  assert (S16 : skipn 16 (pre ++ W ++ Hb ++ bytes_of [8; 6; 0; 0; 0] ++ crc ++ tail)
                = W ++ Hb ++ bytes_of [8; 6; 0; 0; 0] ++ crc ++ tail)
    by (now apply skipn_app_len).
  assert (S20 : skipn 20 (pre ++ W ++ Hb ++ bytes_of [8; 6; 0; 0; 0] ++ crc ++ tail)
                = Hb ++ bytes_of [8; 6; 0; 0; 0] ++ crc ++ tail).
  { change 20%nat with (4 + 16)%nat. rewrite <- skipn_skipn, S16. now apply skipn_app_len. }
  assert (S24 : skipn 24 (pre ++ W ++ Hb ++ bytes_of [8; 6; 0; 0; 0] ++ crc ++ tail)
                = bytes_of [8; 6; 0; 0; 0] ++ crc ++ tail).
  { change 24%nat with (4 + 20)%nat. rewrite <- skipn_skipn, S20. now apply skipn_app_len. }
  assert (S : forall k, (k <= 4)%nat ->
              skipn (24 + k) (pre ++ W ++ Hb ++ bytes_of [8; 6; 0; 0; 0] ++ crc ++ tail)
              = skipn k (bytes_of [8; 6; 0; 0; 0] ++ crc ++ tail)).
  { intros k _. rewrite Nat.add_comm, <- skipn_skipn, S24. reflexivity. }
  rewrite S16, S20, S24.
  change 25%nat with (24 + 1)%nat. change 26%nat with (24 + 2)%nat.
  change 27%nat with (24 + 3)%nat. change 28%nat with (24 + 4)%nat.
  rewrite !S by lia.
  rewrite (firstn_app_len 4 W) by exact LW.
  rewrite (firstn_app_len 4 Hb) by exact LH.
  unfold W, Hb. rewrite !unpack_be_split by (change (8 * Z.of_nat 4) with 32; assumption).
  reflexivity.
Qed.

Lemma make_png_header_witness :
  exists png, make_png (fun data _ => data) 1 1 [(0, 0, 0, 0)] = Ok png
              /\ read_header png = Some (1, 1, (8, 6, 0, 0, 0)).
Proof.
  set (raw := bytes_of [0; 0; 0; 0; 0]).
  assert (Hraw : scanlines 1 1 [(0, 0, 0, 0)] = Ok raw) by (vm_compute; reflexivity).
  assert (Hz : len ((fun (data : list byte) (_ : Z) => data) raw 9) < 2 ^ 32)
    by (cbv beta; unfold raw, len; cbn [bytes_of map length]; lia).
  pose proof (make_png_ok (fun data _ => data) 1 1 [(0, 0, 0, 0)] raw
                          ltac:(lia) ltac:(lia) Hraw Hz) as H.
  eexists. split; [exact H |].
  exact (make_png_header _ _ _ _ _ H).
Defined.

(** X19: a chunk written by [chunk] reads back: for a 4-byte type and data
    shorter than 2^32 bytes the result is 12 bytes longer than the data,
    and a reader that recomputes the CRC recovers type and data from it
    whatever follows; data of 2^32 bytes or more raises [struct.error]. *)
Theorem chunk_roundtrip (chunk_type data : list byte) :
  length chunk_type = 4%nat ->
  (len data < 2 ^ 32 ->
   exists bs, chunk chunk_type data = Ok bs
              /\ len bs = 12 + len data
              /\ forall fuel rest,
                  Png.read_chunks (S fuel) (bs ++ rest)
                  = option_map (cons (chunk_type, data)) (Png.read_chunks fuel rest))
  /\ (2 ^ 32 <= len data -> chunk chunk_type data = Raise StructError).
Proof.
  intros Ht. split.
  - intros Hd. exists (frame chunk_type data).
    split; [now apply chunk_ok |]. split.
    + unfold len. rewrite length_frame, Ht. lia.
    + intros fuel rest. now apply read_chunks_frame.
  - apply chunk_too_long.
Qed.

Lemma chunk_roundtrip_witness :
  exists bs, chunk IEND [] = Ok bs /\ len bs = 12 + len (@nil byte).
Proof.
  destruct (proj1 (chunk_roundtrip IEND [] eq_refl)) as (bs & H & L & _).
  - cbn. lia.
  - exists bs. split; assumption.
Defined.

(** X20: [make_png] does not reject an empty image: with width 0 or
    height 0 (the other dimension in range) no pixel is read, whatever the
    list holds, and the scanline buffer is just [height] filter bytes. *)
Theorem scanlines_empty_image (width height : Z) (pixels : list pixel) :
  0 <= width -> 0 <= height -> width * height = 0 ->
  scanlines width height pixels = Ok (repeat (byte.of_Z 0) (Z.to_nat height)).
Proof.
  intros Hw Hh H0.
  assert (E : forall (ys : list Z) raw,
             width = 0 ->
             rows_loop width pixels ys raw
             = Ok (raw ++ repeat (byte.of_Z 0) (length ys))).
  { intros ys raw ->. revert raw.
    induction ys as [| y ys IH]; intros raw; cbn [rows_loop length repeat].
    - now rewrite app_nil_r.
    - cbn [Py.range Z.to_nat seq map row_loop bind]. rewrite IH.
      now rewrite <- app_assoc. }
  unfold scanlines.
  destruct (Z.eq_dec width 0) as [Ew | Nw].
  - rewrite E by exact Ew. unfold Py.range. now rewrite length_map, length_seq.
  - assert (height = 0) by nia. subst height. reflexivity.
Qed.

Lemma scanlines_empty_image_witness :
  scanlines 0 2 [] = Ok (repeat (byte.of_Z 0) 2).
Proof. apply (scanlines_empty_image 0 2 []); lia. Defined.

(** ** The image files written by [main] *)

Lemma make_png_canvas_Raise zlib_compress size e :
  0 <= size < 2 ^ 32 ->
  make_png zlib_compress size size (draw_icon size) = Raise e -> e = StructError.
Proof.
  intros Hs H. rewrite make_png_cases in H by assumption.
  destruct (draw_icon_scanlines size) as [raw Hraw]. rewrite Hraw in H.
  destruct (len (zlib_compress raw 9) <? 2 ^ 32); [discriminate |].
  now injection H as <-.
Qed.

Lemma favicon_ico_Raise zlib_compress e :
  favicon_ico zlib_compress = Raise e -> e = StructError.
Proof.
  unfold favicon_ico. cbv zeta.
  destruct (make_png zlib_compress 32 32 (draw_icon 32)) as [png | e'] eqn:E;
    cbn [bind].
  - rewrite pack_ico_header. cbn [bind].
    destruct (struct.pack false _ _) as [entry | e'] eqn:P; cbn [bind]; [discriminate |].
    intros H. injection H as <-. exact (pack_raise _ _ _ _ P).
  - intros H. injection H as <-. apply (make_png_canvas_Raise zlib_compress 32); [lia | exact E].
Qed.

Lemma icons_loop_spec zlib_compress todo written :
  Forall (fun fs => 0 <= snd fs < 2 ^ 32) todo ->
  match icons_loop zlib_compress todo written with
  | (files, None) =>
      exists pngs,
        files = written ++ combine (map (fun fs => join out_dir (fst fs)) todo) pngs
        /\ Forall2 (fun fs png =>
                      make_png zlib_compress (snd fs) (snd fs) (draw_icon (snd fs)) = Ok png)
                   todo pngs
  | (files, Some e) =>
      e = StructError
      /\ exists k pngs,
          (k < length todo)%nat /\ length pngs = k
          /\ files = written ++ combine (map (fun fs => join out_dir (fst fs)) (firstn k todo)) pngs
          /\ Forall2 (fun fs png =>
                        make_png zlib_compress (snd fs) (snd fs) (draw_icon (snd fs)) = Ok png)
                     (firstn k todo) pngs
  end.
Proof.
  revert written. induction todo as [| [filename size] todo IH]; intros written Hr;
    cbn [icons_loop].
  - exists []. split; [cbn; now rewrite app_nil_r | constructor].
  - inversion Hr as [| ? ? Hs Hr']; subst. cbn [snd] in Hs. cbv zeta.
    destruct (make_png zlib_compress size size (draw_icon size)) as [png | e] eqn:E.
    + specialize (IH (written ++ [(join out_dir filename, png)]) Hr').
      destruct (icons_loop zlib_compress todo _) as [files [e |]].
      * destruct IH as (-> & k & pngs & Hk & Hl & -> & F).
        split; [reflexivity |]. exists (S k), (png :: pngs).
        split; [cbn; lia |]. split; [cbn; lia |]. split.
        -- cbn [firstn map combine fst]. now rewrite <- app_assoc.
        -- cbn [firstn]. constructor; [exact E | exact F].
      * destruct IH as (pngs & -> & F). exists (png :: pngs). split.
        -- cbn [map combine fst]. now rewrite <- app_assoc.
        -- constructor; [exact E | exact F].
    + split; [now apply (make_png_canvas_Raise zlib_compress size) |].
      exists 0%nat, []. split; [cbn; lia |]. split; [reflexivity |]. split.
      * cbn. now rewrite app_nil_r.
      * constructor.
Qed.

Lemma favicon_ico_Ok zlib_compress ico :
  favicon_ico zlib_compress = Ok ico ->
  exists png, make_png zlib_compress 32 32 (draw_icon 32) = Ok png
              /\ ico = ico_layout png.
Proof.
  unfold favicon_ico. cbv zeta.
  destruct (make_png zlib_compress 32 32 (draw_icon 32)) as [png |]; [| discriminate].
  cbn [bind]. rewrite pack_ico_header. cbn [bind]. intros H.
  exists png. split; [reflexivity |].
  destruct (Z_lt_le_dec (len png) (2 ^ 32)) as [Hlt | Hge].
  - rewrite pack_ico_entry in H by (unfold len in *; lia).
    cbn [bind] in H. injection H as <-. reflexivity.
  - rewrite pack_ico_entry_long in H by exact Hge. discriminate.
Qed.

Lemma favicon_ico_short zlib_compress png :
  make_png zlib_compress 32 32 (draw_icon 32) = Ok png ->
  len png < 2 ^ 32 ->
  favicon_ico zlib_compress = Ok (ico_layout png).
Proof.
  intros H Hl. unfold favicon_ico. cbv zeta. rewrite H. cbn [bind].
  rewrite pack_ico_header. cbn [bind].
  rewrite pack_ico_entry by (unfold len in *; lia). reflexivity.
Qed.

Lemma make_png_canvas_short zlib_compress size :
  0 <= size < 2 ^ 32 ->
  (forall raw, scanlines size size (draw_icon size) = Ok raw ->
               len (zlib_compress raw 9) < 2 ^ 32 - 57) ->
  exists png, make_png zlib_compress size size (draw_icon size) = Ok png
              /\ len png < 2 ^ 32.
Proof.
  intros Hs Hz. destruct (draw_icon_scanlines size) as [raw Hraw].
  specialize (Hz raw Hraw).
  eexists. split; [apply (make_png_ok _ _ _ _ raw); [lia | lia | exact Hraw | lia] |].
  unfold len in *. rewrite !length_app, !length_frame, length_ihdr_data.
  cbn [length sig IHDR IDAT IEND bytes_of map]. lia.
Qed.

(** X21: when the image part of [main] completes it has written exactly
    four files, in this order: the 512, 192 and 180 pixel PNGs, each the
    [make_png] stream of its own canvas, then favicon.ico wrapping the
    32 pixel PNG; and it does complete as soon as zlib's output for each
    of the four canvases is below 2^32 - 57 bytes. *)
Theorem main_images_written (zlib_compress : list byte -> Z -> list byte) :
  (forall written,
      main_images zlib_compress = (written, None) ->
      exists p512 p192 p180 p32,
        make_png zlib_compress 512 512 (draw_icon 512) = Ok p512
        /\ make_png zlib_compress 192 192 (draw_icon 192) = Ok p192
        /\ make_png zlib_compress 180 180 (draw_icon 180) = Ok p180
        /\ make_png zlib_compress 32 32 (draw_icon 32) = Ok p32
        /\ written
           = [ ("/home/user/budgy-ting/public/pwa-512x512.png"%string, p512);
               ("/home/user/budgy-ting/public/pwa-192x192.png"%string, p192);
               ("/home/user/budgy-ting/public/apple-touch-icon.png"%string, p180);
               ("/home/user/budgy-ting/public/favicon.ico"%string, ico_layout p32) ])
  /\ ((forall size raw,
          In size [512; 192; 180; 32] ->
          scanlines size size (draw_icon size) = Ok raw ->
          len (zlib_compress raw 9) < 2 ^ 32 - 57) ->
      exists written, main_images zlib_compress = (written, None)).
Proof.
  split.
  - intros written. unfold main_images.
    pose proof (icons_loop_spec zlib_compress sizes []) as S.
    destruct (icons_loop zlib_compress sizes []) as [files [e |]]; [discriminate |].
    destruct S as (pngs & -> & F); [repeat constructor; cbn; lia |].
    destruct (favicon_ico zlib_compress) as [ico |] eqn:I; [| discriminate].
    apply favicon_ico_Ok in I as (p32 & H32 & ->).
    intros H. injection H as <-.
    unfold sizes in F.
    inversion F as [| ? p512 ? ? H512 F1]; subst.
    inversion F1 as [| ? p192 ? ? H192 F2]; subst.
    inversion F2 as [| ? p180 ? ? H180 F3]; subst.
    inversion F3; subst.
    exists p512, p192, p180, p32. repeat (split; [assumption |]). reflexivity.
  - intros Hz.
    destruct (make_png_canvas_short zlib_compress 512) as (p512 & H512 & _);
      [lia | intros raw; apply Hz; cbn; tauto |].
    destruct (make_png_canvas_short zlib_compress 192) as (p192 & H192 & _);
      [lia | intros raw; apply Hz; cbn; tauto |].
    destruct (make_png_canvas_short zlib_compress 180) as (p180 & H180 & _);
      [lia | intros raw; apply Hz; cbn; tauto |].
    destruct (make_png_canvas_short zlib_compress 32) as (p32 & H32 & L32);
      [lia | intros raw; apply Hz; cbn; tauto |].
    unfold main_images, sizes. cbn [icons_loop]. cbv zeta.
    rewrite H512, H192, H180. rewrite (favicon_ico_short _ _ H32 L32).
    eexists. reflexivity.
Qed.

Lemma main_images_written_witness :
  exists written, main_images (fun _ _ => []) = (written, None)
                  /\ length written = 4%nat.
Proof.
  destruct (main_images_written (fun _ _ => [])) as [A B].
  destruct B as [written H]; [intros size raw _ _; cbn; lia |].
  exists written. split; [exact H |].
  destruct (A written H) as (p1 & p2 & p3 & p4 & _ & _ & _ & _ & ->). reflexivity.
Defined.




